(** * Verification of [main.js]: the PCSS shadow filter and the game session loop

    [main.js] has two parts that carry behaviour:
    - the GLSL chunk [_PCSS] (percentage-closer soft shadows), a numeric
      routine over a shadow-map sampler;
    - the class [BasicWorldDemo], whose two flags [_gameStarted] and
      [_gameOver], the button handlers and the animation-frame callback make
      up the session state machine and the frame loop.

    Numbers.  GLSL [float]s and JavaScript numbers are modelled as real
    numbers ([R]): the development speaks about the arithmetic the code
    writes down, not about rounding. *)

From Stdlib Require Import Reals Lra Lia.
From stdpp Require Import gmap strings list.

Open Scope R_scope.

(** ** The GLSL chunk [_PCSS] *)

Module Shader.

(** [vec2] and the three vector operations the chunk uses. *)
Definition vec2 : Type := R * R.

Definition vadd (p q : vec2) : vec2 := (fst p + fst q, snd p + snd q).
Definition vscale (p : vec2) (k : R) : vec2 := (fst p * k, snd p * k).
(** [-p.yx] *)
Definition vneg_yx (p : vec2) : vec2 := (- snd p, - fst p).

(** Euclidean length of a [vec2] (GLSL [length]). *)
Definition vlength (p : vec2) : R := sqrt (fst p * fst p + snd p * snd p).

(** [vec4 coords]: only [.xy] and [.z] are read. *)
Record vec4 : Type := Vec4 { vx : R; vy : R; vz : R; vw : R }.

Definition LIGHT_WORLD_SIZE : R := 0.05.
Definition LIGHT_FRUSTUM_WIDTH : R := 3.75.
Definition LIGHT_SIZE_UV : R := LIGHT_WORLD_SIZE / LIGHT_FRUSTUM_WIDTH.
Definition NEAR_PLANE : R := 1.0.

Definition NUM_SAMPLES : nat := 17.
Definition NUM_RINGS : nat := 11.
Definition BLOCKER_SEARCH_NUM_SAMPLES : nat := NUM_SAMPLES.
Definition PCF_NUM_SAMPLES : nat := NUM_SAMPLES.

(** [PI2] comes from three.js' common shader chunk; it stands for 2π. *)
Definition PI2 : R := 2 * PI.

(** The global [vec2 poissonDisk[NUM_SAMPLES]] is a list of 17 entries that
    is threaded through the functions; [poissonDisk[i]] reads it. *)
Definition disk_get (poissonDisk : list vec2) (i : nat) : vec2 :=
  default (0, 0) (poissonDisk !! i).

Section WithSampler.

(** [rand] is three.js' hash of a [vec2] to the unit interval; it is not
    part of this repository and stays a parameter. *)
Variable rand : vec2 -> R.

(** The shadow map, read through
    [unpackRGBAToDepth(texture2D(shadowMap, .))]: a decoded depth for
    every UV coordinate. *)
Variable shadowMap : vec2 -> R.

(** The body of the [for] loop of [initPoissonSamples]: [n] iterations
    remain, [i] is the loop counter. *)
Fixpoint initPoissonSamples_loop (n i : nat)
    (ANGLE_STEP radiusStep angle radius : R)
    (poissonDisk : list vec2) : list vec2 :=
  match n with
  | O => poissonDisk
  | S n' =>
      let poissonDisk' :=
        <[ i := vscale (cos angle, sin angle) (Rpower radius 0.75) ]>
          poissonDisk in
      initPoissonSamples_loop n' (S i) ANGLE_STEP radiusStep
        (angle + ANGLE_STEP) (radius + radiusStep) poissonDisk'
  end.

Definition initPoissonSamples (randomSeed : vec2)
    (poissonDisk : list vec2) : list vec2 :=
  let ANGLE_STEP := PI2 * INR NUM_RINGS / INR NUM_SAMPLES in
  let INV_NUM_SAMPLES := 1.0 / INR NUM_SAMPLES in
  let angle := rand randomSeed * PI2 in
  let radius := INV_NUM_SAMPLES in
  let radiusStep := radius in
  initPoissonSamples_loop NUM_SAMPLES 0 ANGLE_STEP radiusStep
    angle radius poissonDisk.

Definition penumbraSize (zReceiver zBlocker : R) : R :=
  (zReceiver - zBlocker) / zBlocker.

(** Every function that reads the shadow map also returns the list of
    coordinates it fetched, in order ("taps"). *)

(** Loop state of [findBlocker]. *)
Record BlockerAcc : Type := MkBlockerAcc {
  blockerDepthSum : R;
  numBlockers : nat;
  blockerTaps : list vec2
}.

Definition findBlocker_step (poissonDisk : list vec2) (uv : vec2)
    (zReceiver searchRadius : R) (acc : BlockerAcc) (i : nat)
    : BlockerAcc :=
  let p := vadd uv (vscale (disk_get poissonDisk i) searchRadius) in
  let shadowMapDepth := shadowMap p in
  if Rlt_dec shadowMapDepth zReceiver
  then MkBlockerAcc (blockerDepthSum acc + shadowMapDepth)
                    (S (numBlockers acc))
                    (blockerTaps acc ++ [p])
  else MkBlockerAcc (blockerDepthSum acc) (numBlockers acc)
                    (blockerTaps acc ++ [p]).

Definition findBlocker_loop (poissonDisk : list vec2) (uv : vec2)
    (zReceiver searchRadius : R) : BlockerAcc :=
  fold_left (findBlocker_step poissonDisk uv zReceiver searchRadius)
    (seq 0 BLOCKER_SEARCH_NUM_SAMPLES) (MkBlockerAcc 0.0 0 []).

Definition findBlocker (poissonDisk : list vec2) (uv : vec2)
    (zReceiver : R) : R * list vec2 :=
  let searchRadius :=
    LIGHT_SIZE_UV * (zReceiver - NEAR_PLANE) / zReceiver in
  let acc := findBlocker_loop poissonDisk uv zReceiver searchRadius in
  if Nat.eqb (numBlockers acc) 0
  then (-1.0, blockerTaps acc)
  else (blockerDepthSum acc / INR (numBlockers acc), blockerTaps acc).

(** One tap of [PCF_Filter]: [sum] and the taps so far. *)
Definition PCF_tap (zReceiver : R) (p : vec2) (acc : R * list vec2)
    : R * list vec2 :=
  let depth := shadowMap p in
  if Rle_dec zReceiver depth
  then (fst acc + 1.0, snd acc ++ [p])
  else (fst acc, snd acc ++ [p]).

Definition PCF_Filter (poissonDisk : list vec2) (uv : vec2)
    (zReceiver filterRadius : R) : R * list vec2 :=
  let acc1 :=
    fold_left
      (fun acc i =>
         PCF_tap zReceiver
           (vadd uv (vscale (disk_get poissonDisk i) filterRadius)) acc)
      (seq 0 PCF_NUM_SAMPLES) (0.0, []) in
  let acc2 :=
    fold_left
      (fun acc i =>
         PCF_tap zReceiver
           (vadd uv
              (vscale (vneg_yx (disk_get poissonDisk i)) filterRadius))
           acc)
      (seq 0 PCF_NUM_SAMPLES) acc1 in
  (fst acc2 / (2.0 * INR PCF_NUM_SAMPLES), snd acc2).

(** [filterRadius] as [PCSS] computes it in its step 2. *)
Definition filterRadius (zReceiver avgBlockerDepth : R) : R :=
  let penumbraRatio := penumbraSize zReceiver avgBlockerDepth in
  penumbraRatio * LIGHT_SIZE_UV * NEAR_PLANE / zReceiver.

(** [PCSS]: the attenuation and the taps of the whole call.  The
    argument [poissonDisk] is the content of the global array before
    the call. *)
Definition PCSS (coords : vec4) (poissonDisk : list vec2)
    : R * list vec2 :=
  let uv := (vx coords, vy coords) in
  let zReceiver := vz coords in
  let poissonDisk' := initPoissonSamples uv poissonDisk in
  let '(avgBlockerDepth, taps1) := findBlocker poissonDisk' uv zReceiver in
  if Req_dec_T avgBlockerDepth (-1.0)
  then (1.0, taps1)
  else
    let '(r, taps2) :=
      PCF_Filter poissonDisk' uv zReceiver
        (filterRadius zReceiver avgBlockerDepth) in
    (r, taps1 ++ taps2).

(** The coordinate of tap [i] of the blocker search of [PCSS coords]. *)
Definition blocker_tap (coords : vec4) (poissonDisk : list vec2) (i : nat)
    : vec2 :=
  let uv := (vx coords, vy coords) in
  vadd uv
    (vscale (disk_get (initPoissonSamples uv poissonDisk) i)
       (LIGHT_SIZE_UV * (vz coords - NEAR_PLANE) / vz coords)).

(** Entry [k] of the array after [initPoissonSamples]: the angle and the
    radius have been stepped [k] times. *)
Definition spiral_sample (ANGLE_STEP radiusStep angle radius : R) (k : nat)
    : vec2 :=
  vscale (cos (angle + INR k * ANGLE_STEP), sin (angle + INR k * ANGLE_STEP))
    (Rpower (radius + INR k * radiusStep) 0.75).

End WithSampler.

(** *** What the two loops compute, said over the list of taps *)





End Shader.

(** ** The class [BasicWorldDemo] *)

Module Demo.

(** *** three.js values *)

(** The objects [_InitializeScene] puts into the scene are built from
    constants only, so a tag identifies each of them:
    [DirectionalLight] is the shadow-casting light of lines 212-225,
    [HemisphereLight] the light of line 227, [Ground] the plane mesh of
    lines 231-238 and [Sky] the dome mesh of lines 241-254.  [External]
    wraps an object created by the player, world or background module. *)
Inductive Object3D (Ext : Type) : Type :=
| DirectionalLight
| HemisphereLight
| Ground
| Sky
| External (x : Ext).
Arguments DirectionalLight {Ext}.
Arguments HemisphereLight {Ext}.
Arguments Ground {Ext}.
Arguments Sky {Ext}.
Arguments External {Ext} x.

#[global] Instance Object3D_eq_dec {Ext} `{EqDecision Ext} :
  EqDecision (Object3D Ext).
Proof. solve_decision. Defined.

Inductive Fog : Type := FogExp2 (color : Z) (density : R).

(** [THREE.Scene]: the ordered children, [background] (a colour) and
    [fog]. *)
Record Scene (Ext : Type) : Type := MkScene {
  children : list (Object3D Ext);
  background : option Z;
  fog : option Fog
}.
Arguments MkScene {Ext}.
Arguments children {Ext}.
Arguments background {Ext}.
Arguments fog {Ext}.

(** [new THREE.Scene()] *)
Definition Scene_new {Ext} : Scene Ext := MkScene [] None None.

(** [scene.add(obj)] for a newly created object (it has no parent). *)
Definition Scene_add {Ext} (obj : Object3D Ext) (sc : Scene Ext) : Scene Ext :=
  MkScene (children sc ++ [obj]) (background sc) (fog sc).

(** [children.indexOf(obj)] followed by [splice(index, 1)]. *)
Fixpoint remove_first {A} `{EqDecision A} (x : A) (l : list A) : list A :=
  match l with
  | [] => []
  | y :: l' => if decide (x = y) then l' else y :: remove_first x l'
  end.

(** [scene.remove(obj)]; [None] is [undefined], which is never a child. *)
Definition Scene_remove {Ext} `{EqDecision Ext}
    (obj : option (Object3D Ext)) (sc : Scene Ext) : Scene Ext :=
  match obj with
  | Some o => MkScene (remove_first o (children sc)) (background sc) (fog sc)
  | None => sc
  end.

(** [scene.clear()]: every child is removed. *)
Definition Scene_clear {Ext} (sc : Scene Ext) : Scene Ext :=
  MkScene [] (background sc) (fog sc).

Definition vec3 : Type := (R * R * R)%type.

(** [THREE.PerspectiveCamera] *)
Record Camera : Type := MkCamera {
  fov : R;
  aspect : R;
  near : R;
  far : R;
  position : vec3;
  lookAtTarget : vec3
}.

Inductive Encoding : Type := LinearEncoding | sRGBEncoding.

(** [THREE.WebGLRenderer] *)
Record Renderer : Type := MkRenderer {
  antialias : bool;
  outputEncoding : Encoding;
  shadowMap_enabled : bool;
  pixelRatio : R;
  size : R * R
}.

(** *** The page *)

(** The four callbacks the class installs. *)
Inductive Handler : Type :=
| Handler_OnStart
| Handler_OnReplay
| Handler_OnCharacterSelect
| Handler_OnWindowResize.

Inductive DomNode : Type := RendererCanvas.

(** What the class reads and writes of an element. *)
Record Element : Type := MkElement {
  value : string;
  style_display : string;
  classList : list string;
  onclick : option Handler;
  listeners : list (string * Handler);
  childNodes : list DomNode
}.

Definition classList_add (c : string) (l : list string) : list string :=
  if decide (c ∈ l) then l else l ++ [c].

Definition classList_remove (c : string) (l : list string) : list string :=
  filter (fun x => x ≠ c) l.

Inductive JsError : Type := TypeError.

(** *** The collaborators *)

(** [player.js], [world.js] and [background.js] are used through their
    constructors, [Update], the player's [mesh_] and its [gameOver] flag.
    A constructor is handed the scene and may change it; an [Update] may
    change the object and whatever the object holds a reference to (the
    scene, and for the player also the world).  Those references are
    passed as arguments: [scene_] is never replaced, and [world_] and
    [player_] are only replaced by a player built on the current
    [world_], so an object always refers to what the instance's fields
    hold.  Work the modules start asynchronously (model loading) is not
    part of [main.js] and not of this model. *)
Class Collaborators : Type := {
  Ext : Type;
  Ext_eq_dec :: EqDecision Ext;
  Player : Type;
  WorldManager : Type;
  Background : Type;
  WorldManager_new : Scene Ext -> WorldManager * Scene Ext;
  Player_new :
    Scene Ext -> WorldManager -> option string -> Player * Scene Ext;
  Background_new : Scene Ext -> Background * Scene Ext;
  Player_mesh_ : Player -> option (Object3D Ext);
  Player_gameOver : Player -> bool;
  Player_Update :
    R -> Player -> WorldManager -> Scene Ext ->
    Player * WorldManager * Scene Ext;
  WorldManager_Update :
    R -> WorldManager -> Scene Ext -> WorldManager * Scene Ext;
  Background_Update :
    R -> Background -> Scene Ext -> Background * Scene Ext
}.

Section WithCollaborators.

Context `{C : Collaborators}.

(** Calls that leave the class, in the order they are made. *)
Inductive Event : Type :=
| RequestAnimationFrame
| PlayerUpdate (timeElapsed : R)
| WorldUpdate (timeElapsed : R)
| BackgroundUpdate (timeElapsed : R)
| Render (scene : Scene Ext) (camera : Camera)
| ConsoleLog (label : string) (arg : option string).

(** The fields of a [BasicWorldDemo] instance.  [None] is [undefined]
    (or [null] for [previousRAF_]); the two flags are only tested for
    truth, so [undefined] and [false] are one value. *)
#[projections(primitive)] Record App : Type := MkApp {
  threejs_ : option Renderer;
  scene_ : option (Scene Ext);
  camera_ : option Camera;
  world_ : option WorldManager;
  player_ : option Player;
  background_ : option Background;
  previousRAF_ : option R;
  _gameStarted : bool;
  _gameOver : bool;
  _currentCharacter : option string
}.

(** The browser side: the document, the window and the calls observed. *)
#[projections(primitive)] Record Host : Type := MkHost {
  document : gmap string Element;
  innerWidth : R;
  innerHeight : R;
  devicePixelRatio : R;
  windowListeners : list (string * Handler);
  pendingFrames : nat;
  log : list Event
}.

#[projections(primitive)] Record State : Type := MkState { app : App; host : Host }.

(** **** A state monad with exceptions

    A [Throw] keeps the state reached when the exception was raised:
    the mutations made before it stay. *)
Inductive Result (A : Type) : Type :=
| Normal (a : A) (s : State)
| Throw (e : JsError) (s : State).
Arguments Normal {A}.
Arguments Throw {A}.

Definition M (A : Type) : Type := State -> Result A.

Definition ret {A} (a : A) : M A := fun s => Normal a s.

Definition bind {A B} (m : M A) (f : A -> M B) : M B :=
  fun s =>
    match m s with
    | Normal a s' => f a s'
    | Throw e s' => Throw e s'
    end.

Definition throw {A} (e : JsError) : M A := fun s => Throw e s.

Definition gets {A} (f : State -> A) : M A := fun s => Normal (f s) s.

Definition modify (f : State -> State) : M unit :=
  fun s => Normal tt (f s).

(** Member access on a value that may be [undefined] or [null]. *)
Definition deref {A} (o : option A) : M A :=
  match o with
  | Some a => ret a
  | None => throw TypeError
  end.

(** The state a computation ends in, however it ends. *)
Definition final_state {A} (r : Result A) : State :=
  match r with
  | Normal _ s => s
  | Throw _ s => s
  end.

Declare Scope js_scope.
Delimit Scope js_scope with js.
Notation "'let*' x := m 'in' k" := (bind m (fun x => k))
  (at level 10, x name, m at level 100, k at level 200) : js_scope.
Notation "m >> k" := (bind m (fun _ => k))
  (at level 100, k at level 200, right associativity) : js_scope.
Open Scope js_scope.

(** **** Field access *)

Definition set_threejs_ (v : option Renderer) (a : App) : App :=
  MkApp v (scene_ a) (camera_ a) (world_ a) (player_ a) (background_ a)
    (previousRAF_ a) (_gameStarted a) (_gameOver a) (_currentCharacter a).
Definition set_scene_ (v : option (Scene Ext)) (a : App) : App :=
  MkApp (threejs_ a) v (camera_ a) (world_ a) (player_ a) (background_ a)
    (previousRAF_ a) (_gameStarted a) (_gameOver a) (_currentCharacter a).
Definition set_camera_ (v : option Camera) (a : App) : App :=
  MkApp (threejs_ a) (scene_ a) v (world_ a) (player_ a) (background_ a)
    (previousRAF_ a) (_gameStarted a) (_gameOver a) (_currentCharacter a).
Definition set_world_ (v : option WorldManager) (a : App) : App :=
  MkApp (threejs_ a) (scene_ a) (camera_ a) v (player_ a) (background_ a)
    (previousRAF_ a) (_gameStarted a) (_gameOver a) (_currentCharacter a).
Definition set_player_ (v : option Player) (a : App) : App :=
  MkApp (threejs_ a) (scene_ a) (camera_ a) (world_ a) v (background_ a)
    (previousRAF_ a) (_gameStarted a) (_gameOver a) (_currentCharacter a).
Definition set_background_ (v : option Background) (a : App) : App :=
  MkApp (threejs_ a) (scene_ a) (camera_ a) (world_ a) (player_ a) v
    (previousRAF_ a) (_gameStarted a) (_gameOver a) (_currentCharacter a).
Definition set_previousRAF_ (v : option R) (a : App) : App :=
  MkApp (threejs_ a) (scene_ a) (camera_ a) (world_ a) (player_ a)
    (background_ a) v (_gameStarted a) (_gameOver a) (_currentCharacter a).
Definition set_gameStarted (v : bool) (a : App) : App :=
  MkApp (threejs_ a) (scene_ a) (camera_ a) (world_ a) (player_ a)
    (background_ a) (previousRAF_ a) v (_gameOver a) (_currentCharacter a).
Definition set_gameOver (v : bool) (a : App) : App :=
  MkApp (threejs_ a) (scene_ a) (camera_ a) (world_ a) (player_ a)
    (background_ a) (previousRAF_ a) (_gameStarted a) v (_currentCharacter a).
Definition set_currentCharacter (v : option string) (a : App) : App :=
  MkApp (threejs_ a) (scene_ a) (camera_ a) (world_ a) (player_ a)
    (background_ a) (previousRAF_ a) (_gameStarted a) (_gameOver a) v.

Definition set_document (v : gmap string Element) (h : Host) : Host :=
  MkHost v (innerWidth h) (innerHeight h) (devicePixelRatio h)
    (windowListeners h) (pendingFrames h) (log h).
Definition set_windowListeners (v : list (string * Handler)) (h : Host)
    : Host :=
  MkHost (document h) (innerWidth h) (innerHeight h) (devicePixelRatio h)
    v (pendingFrames h) (log h).
Definition set_pendingFrames (v : nat) (h : Host) : Host :=
  MkHost (document h) (innerWidth h) (innerHeight h) (devicePixelRatio h)
    (windowListeners h) v (log h).
Definition set_innerSize (w h' : R) (h : Host) : Host :=
  MkHost (document h) w h' (devicePixelRatio h)
    (windowListeners h) (pendingFrames h) (log h).
Definition set_log (v : list Event) (h : Host) : Host :=
  MkHost (document h) (innerWidth h) (innerHeight h) (devicePixelRatio h)
    (windowListeners h) (pendingFrames h) v.

(** [this.f = v] *)
Definition assign (f : App -> App) : M unit :=
  modify (fun s => MkState (f (app s)) (host s)).

(** A change on the browser side. *)
Definition host_do (f : Host -> Host) : M unit :=
  modify (fun s => MkState (app s) (f (host s))).

(** [this.f] *)
Definition this {A} (f : App -> A) : M A := gets (fun s => f (app s)).

(** [this.f] where the value is used as an object right away. *)
Definition this_obj {A} (f : App -> option A) : M A :=
  let* o := this f in deref o.

Definition emit (e : Event) : M unit :=
  host_do (fun h => set_log (log h ++ [e]) h).

(** [document.getElementById(id)]; [None] is [null]. *)
Definition getElementById (id : string) : M (option Element) :=
  gets (fun s => document (host s) !! id).

(** [document.getElementById(id)] used as an object. *)
Definition element (id : string) : M Element :=
  let* o := getElementById id in deref o.

(** Writing a property of the element [id]. *)
Definition element_put (id : string) (e : Element) : M unit :=
  host_do (fun h => set_document (<[ id := e ]> (document h)) h).

Definition with_value (v : string) (e : Element) : Element :=
  MkElement v (style_display e) (classList e) (onclick e) (listeners e)
    (childNodes e).
Definition with_style_display (v : string) (e : Element) : Element :=
  MkElement (value e) v (classList e) (onclick e) (listeners e)
    (childNodes e).
Definition with_classList (v : list string) (e : Element) : Element :=
  MkElement (value e) (style_display e) v (onclick e) (listeners e)
    (childNodes e).
Definition with_onclick (v : option Handler) (e : Element) : Element :=
  MkElement (value e) (style_display e) (classList e) v (listeners e)
    (childNodes e).
Definition with_listeners (v : list (string * Handler)) (e : Element)
    : Element :=
  MkElement (value e) (style_display e) (classList e) (onclick e) v
    (childNodes e).
Definition with_childNodes (v : list DomNode) (e : Element) : Element :=
  MkElement (value e) (style_display e) (classList e) (onclick e)
    (listeners e) v.

(** [this.scene_.m(...)] for a method [m] that changes the scene. *)
Definition scene_do (f : Scene Ext -> Scene Ext) : M unit :=
  let* sc := this_obj scene_ in
  assign (set_scene_ (Some (f sc))).

Definition threejs_do (f : Renderer -> Renderer) : M unit :=
  let* r := this_obj threejs_ in
  assign (set_threejs_ (Some (f r))).

Definition camera_do (f : Camera -> Camera) : M unit :=
  let* c := this_obj camera_ in
  assign (set_camera_ (Some (f c))).


(** **** The methods of [BasicWorldDemo] *)

(** [_ResetPlayer] (lines 160-171). *)
Definition _ResetPlayer : M unit :=
  let* p := this player_ in
  (match p with
   | Some pl => scene_do (Scene_remove (Player_mesh_ pl))
   | None => ret tt
   end) >>
  let* sc := this_obj scene_ in
  let* w := this_obj world_ in
  let* c := this _currentCharacter in
  let r := Player_new sc w c in
  assign (set_scene_ (Some (snd r))) >>
  assign (set_player_ (Some (fst r))).

(** [_InitializeScene] (lines 205-264). *)
Definition _InitializeScene : M unit :=
  scene_do (fun sc => MkScene (children sc) (Some 0x808080%Z) (fog sc)) >>
  scene_do (fun sc =>
    MkScene (children sc) (background sc)
      (Some (FogExp2 0x89b2eb%Z 0.00125))) >>
  scene_do (Scene_add DirectionalLight) >>
  scene_do (Scene_add HemisphereLight) >>
  scene_do (Scene_add Ground) >>
  scene_do (Scene_add Sky) >>
  let* sc := this_obj scene_ in
  let r := WorldManager_new sc in
  assign (set_scene_ (Some (snd r))) >>
  assign (set_world_ (Some (fst r))) >>
  let* sc := this_obj scene_ in
  let* w := this_obj world_ in
  let* c := this _currentCharacter in
  let r := Player_new sc w c in
  assign (set_scene_ (Some (snd r))) >>
  assign (set_player_ (Some (fst r))) >>
  let* sc := this_obj scene_ in
  let r := Background_new sc in
  assign (set_scene_ (Some (snd r))) >>
  assign (set_background_ (Some (fst r))).

(** [_ResetGame] (lines 173-178). *)
Definition _ResetGame : M unit :=
  scene_do Scene_clear >>
  _InitializeScene >>
  assign (set_gameOver false).

(** [_OnStart] (lines 133-143). *)
Definition _OnStart : M unit :=
  let* sel := element "character-select" in
  assign (set_currentCharacter (Some (value sel))) >>
  _ResetPlayer >>
  let* menu := element "game-menu" in
  element_put "game-menu" (with_style_display "none" menu) >>
  assign (set_gameStarted true).

(** [_OnCharacterSelect] (lines 145-148); [target] is the id of
    [event.target]. *)
Definition _OnCharacterSelect (target : string) : M unit :=
  let* el := element target in
  assign (set_currentCharacter (Some (value el))) >>
  let* c := this _currentCharacter in
  emit (ConsoleLog "Selected character:" c).

(** [_OnReplay] (lines 150-158). *)
Definition _OnReplay : M unit :=
  let* sel := element "character-select" in
  assign (set_currentCharacter (Some (value sel))) >>
  let* panel := element "game-over" in
  element_put "game-over"
    (with_classList (classList_remove "active" (classList panel)) panel) >>
  _ResetGame >>
  assign (set_gameStarted true).

(** [OnWindowResize_] (lines 266-270). *)
Definition OnWindowResize_ : M unit :=
  let* w := gets (fun s => innerWidth (host s)) in
  let* h := gets (fun s => innerHeight (host s)) in
  camera_do (fun c =>
    MkCamera (fov c) (w / h) (near c) (far c) (position c)
      (lookAtTarget c)) >>
  threejs_do (fun r =>
    MkRenderer (antialias r) (outputEncoding r) (shadowMap_enabled r)
      (pixelRatio r) (w, h)).

(** [Step_] (lines 286-299).  Each [Update] call is logged when it is
    made. *)
Definition Step_ (timeElapsed : R) : M unit :=
  let* started := this _gameStarted in
  let* over := this _gameOver in
  if negb started || over then ret tt
  else
    (let* p := this_obj player_ in
     emit (PlayerUpdate timeElapsed) >>
     let* w := this_obj world_ in
     let* sc := this_obj scene_ in
     let r := Player_Update timeElapsed p w sc in
     assign (set_player_ (Some (fst (fst r)))) >>
     assign (set_world_ (Some (snd (fst r)))) >>
     assign (set_scene_ (Some (snd r)))) >>
    (let* w := this_obj world_ in
     emit (WorldUpdate timeElapsed) >>
     let* sc := this_obj scene_ in
     let r := WorldManager_Update timeElapsed w sc in
     assign (set_world_ (Some (fst r))) >>
     assign (set_scene_ (Some (snd r)))) >>
    (let* b := this_obj background_ in
     emit (BackgroundUpdate timeElapsed) >>
     let* sc := this_obj scene_ in
     let r := Background_Update timeElapsed b sc in
     assign (set_background_ (Some (fst r))) >>
     assign (set_scene_ (Some (snd r)))) >>
    let* p := this_obj player_ in
    let* over := this _gameOver in
    if Player_gameOver p && negb over then
      assign (set_gameOver true) >>
      let* panel := element "game-over" in
      element_put "game-over"
        (with_classList (classList_add "active" (classList panel)) panel)
    else ret tt.

(** [RAF_] (line 273): the callback is handed to
    [requestAnimationFrame]. *)
Definition RAF_ : M unit :=
  emit RequestAnimationFrame >>
  host_do (fun h => set_pendingFrames (S (pendingFrames h)) h).

(** The callback of [RAF_] (lines 273-283), called with the timestamp
    [t]: one tick of the frame loop. *)
Definition RAF_callback (t : R) : M unit :=
  let* prev := this previousRAF_ in
  (match prev with
   | None => assign (set_previousRAF_ (Some t))
   | Some _ => ret tt
   end) >>
  RAF_ >>
  let* prev := this previousRAF_ in
  Step_ ((t - default 0 prev) / 1000.0) >>
  let* r := this_obj threejs_ in
  let* sc := this_obj scene_ in
  let* cam := this_obj camera_ in
  emit (Render sc cam) >>
  assign (set_previousRAF_ (Some t)).

(** [_Initialize] (lines 180-203). *)
Definition _Initialize : M unit :=
  assign (set_threejs_
    (Some (MkRenderer true LinearEncoding false 1 (300, 150)))) >>
  threejs_do (fun r =>
    MkRenderer (antialias r) sRGBEncoding (shadowMap_enabled r)
      (pixelRatio r) (size r)) >>
  threejs_do (fun r =>
    MkRenderer (antialias r) (outputEncoding r) true (pixelRatio r)
      (size r)) >>
  let* dpr := gets (fun s => devicePixelRatio (host s)) in
  threejs_do (fun r =>
    MkRenderer (antialias r) (outputEncoding r) (shadowMap_enabled r) dpr
      (size r)) >>
  let* w := gets (fun s => innerWidth (host s)) in
  let* h := gets (fun s => innerHeight (host s)) in
  threejs_do (fun r =>
    MkRenderer (antialias r) (outputEncoding r) (shadowMap_enabled r)
      (pixelRatio r) (w, h)) >>
  let* container := element "container" in
  element_put "container"
    (with_childNodes (childNodes container ++ [RendererCanvas]) container) >>
  host_do (fun h =>
    set_windowListeners
      (windowListeners h ++ [("resize", Handler_OnWindowResize)]) h) >>
  assign (set_scene_ (Some Scene_new)) >>
  assign (set_camera_
    (Some (MkCamera 60 (1920 / 1080) 1.0 20000.0 (0, 0, 0) (0, 0, -1)))) >>
  camera_do (fun c =>
    MkCamera (fov c) (aspect c) (near c) (far c) (-5, 5, 10)
      (lookAtTarget c)) >>
  camera_do (fun c =>
    MkCamera (fov c) (aspect c) (near c) (far c) (position c) (8, 3, 0)) >>
  _InitializeScene >>
  assign (set_previousRAF_ None) >>
  RAF_.

(** The constructor (lines 118-131). *)
Definition BasicWorldDemo_constructor : M unit :=
  _Initialize >>
  assign (set_gameStarted false) >>
  assign (set_gameOver false) >>
  assign (set_currentCharacter (Some "Velociraptor")) >>
  let* play := element "play-button" in
  element_put "play-button" (with_onclick (Some Handler_OnStart) play) >>
  let* replay := element "replay-button" in
  element_put "replay-button" (with_onclick (Some Handler_OnReplay) replay) >>
  let* sel := element "character-select" in
  element_put "character-select"
    (with_listeners (listeners sel ++ [("change", Handler_OnCharacterSelect)])
       sel).

(** **** The browser's side of the loop *)

(** The instance before the constructor body runs, in a page [h]. *)
Definition blank (h : Host) : State :=
  MkState
    (MkApp None None None None None None None false false None) h.

(** An exception that escapes a callback is reported by the browser and the
    page goes on, in the state the callback left. *)
Definition settle (m : M unit) : M unit :=
  fun s => Normal tt (final_state (m s)).

Definition run_handler (target : string) (h : Handler) : M unit :=
  match h with
  | Handler_OnStart => _OnStart
  | Handler_OnReplay => _OnReplay
  | Handler_OnCharacterSelect => _OnCharacterSelect target
  | Handler_OnWindowResize => OnWindowResize_
  end.

Fixpoint run_listeners (type target : string)
    (ls : list (string * Handler)) : M unit :=
  match ls with
  | [] => ret tt
  | (ty, h) :: ls' =>
      (if decide (ty = type) then settle (run_handler target h)
       else ret tt) >>
      run_listeners type target ls'
  end.

Fixpoint run_frames (n : nat) (t : R) : M unit :=
  match n with
  | O => ret tt
  | S n' => settle (RAF_callback t) >> run_frames n' t
  end.

(** What the browser delivers to the page. *)
Inductive HostEvent : Type :=
| Click (id : string)
| Change (id : string) (v : string)
| Resize (w h : R)
| AnimationFrame (t : R).

Definition dispatch (ev : HostEvent) : M unit :=
  match ev with
  | Click id =>
      let* o := getElementById id in
      match o with
      | Some el =>
          match onclick el with
          | Some h => settle (run_handler id h)
          | None => ret tt
          end
      | None => ret tt
      end
  | Change id v =>
      let* o := getElementById id in
      match o with
      | Some el =>
          element_put id (with_value v el) >>
          run_listeners "change" id (listeners el)
      | None => ret tt
      end
  | Resize w h =>
      host_do (set_innerSize w h) >>
      let* ls := gets (fun s => windowListeners (host s)) in
      run_listeners "resize" "window" ls
  | AnimationFrame t =>
      let* n := gets (fun s => pendingFrames (host s)) in
      host_do (set_pendingFrames 0) >>
      run_frames n t
  end.

(** The states of the page: the one the constructor leaves in a page [h]
    (also when it throws half-way), and those reached from it by events. *)
Inductive reachable (h : Host) : State -> Prop :=
| reachable_new :
    reachable h (final_state (BasicWorldDemo_constructor (blank h)))
| reachable_event s ev :
    reachable h s -> reachable h (final_state (dispatch ev s)).

(** **** The session state of the specification *)

Inductive SessionState : Type := Idle | Playing | GameOver.

(** [Step_] updates exactly when [_gameStarted && !_gameOver]; the
    game-over panel is shown when [_gameOver] is set. *)
Definition sessionState (s : State) : SessionState :=
  match _gameStarted (app s), _gameOver (app s) with
  | false, _ => Idle
  | true, false => Playing
  | true, true => GameOver
  end.

(** The actors of the current generation: the scene with its children and
    the three gameplay objects. *)
Definition actors (s : State)
    : option (Scene Ext) * option WorldManager * option Player
      * option Background :=
  (scene_ (app s), world_ (app s), player_ (app s), background_ (app s)).

(** The two flags are consistent: over only if started. *)
Definition flags_ok (s : State) : Prop :=
  _gameOver (app s) = true -> _gameStarted (app s) = true.

(** The instance is fully built: every object field is set. *)
Definition constructed (s : State) : Prop :=
  is_Some (threejs_ (app s)) /\ is_Some (scene_ (app s)) /\
  is_Some (camera_ (app s)) /\ is_Some (world_ (app s)) /\
  is_Some (player_ (app s)) /\ is_Some (background_ (app s)).

(** The page has the element [id]. *)
Definition has_element (id : string) (s : State) : Prop :=
  is_Some (document (host s) !! id).

(** Ready for a tick: fully built, on a page with the game-over panel. *)
Definition ready (s : State) : Prop :=
  constructed s /\ has_element "game-over" s.

(** The events a computation adds to the log of [s]. *)
Definition emitted {A} (m : M A) (s : State) : list Event :=
  drop (length (log (host s))) (log (host (final_state (m s)))).

Definition is_update (e : Event) : bool :=
  match e with
  | PlayerUpdate _ | WorldUpdate _ | BackgroundUpdate _ => true
  | _ => false
  end.

Definition is_render (e : Event) : bool :=
  match e with
  | Render _ _ => true
  | _ => false
  end.

End WithCollaborators.

Arguments Normal {C A}.
Arguments Throw {C A}.

(** *** A test double for the collaborators and a page

    Used to run the class on concrete inputs. *)
Module Stub.

Record StubPlayer : Type := MkStubPlayer {
  character : option string;
  updates : nat
}.

(** The player reports [gameOver] from its third update on; its mesh is
    the scene object ["player"]. *)
#[global] Instance stub : Collaborators := {|
  Ext := string;
  Player := StubPlayer;
  WorldManager := nat;
  Background := nat;
  WorldManager_new sc := (O, sc);
  Player_new sc w c := (MkStubPlayer c 0, Scene_add (External "player") sc);
  Background_new sc := (O, sc);
  Player_mesh_ p := Some (External "player");
  Player_gameOver p := (3 <=? updates p)%nat;
  Player_Update dt p w sc := (MkStubPlayer (character p) (S (updates p)), w, sc);
  WorldManager_Update dt w sc := (S w, sc);
  Background_Update dt b sc := (S b, sc)
|}.

Definition plain_element : Element := MkElement "" "" [] None [] [].

(** A page with the six elements [main.js] looks up; the dropdown shows
    ["TRex"]. *)
Definition page : gmap string Element :=
  {[ "container" := plain_element;
     "play-button" := plain_element;
     "replay-button" := plain_element;
     "character-select" := with_value "TRex" plain_element;
     "game-menu" := plain_element;
     "game-over" := plain_element ]}.

Definition browser : Host := MkHost page 1920 1080 1 [] 0 [].

(** The dropdown once the constructor has run. *)
Definition dropdown : Element :=
  with_listeners [("change", Handler_OnCharacterSelect)]
    (with_value "TRex" plain_element).

(** The state right after [new BasicWorldDemo()]. *)
Definition started_page : State :=
  final_state (BasicWorldDemo_constructor (blank browser)).

(** The state after a sequence of browser events. *)
Definition after (evs : list HostEvent) (s : State) : State :=
  fold_left (fun s ev => final_state (dispatch ev s)) evs s.

(** Play was clicked before the first animation frame. *)
Definition playing_page : State := after [Click "play-button"] started_page.

(** Play was clicked and one frame has run. *)
Definition playing_page_1 : State :=
  after [Click "play-button"; AnimationFrame 0] started_page.

(** Play was clicked and three frames have run: the player is out. *)
Definition over_page : State :=
  after [Click "play-button"; AnimationFrame 0; AnimationFrame 16;
         AnimationFrame 32] started_page.

(** The test page without the element [id], and the state the constructor
    leaves on it. *)
Definition browser_without (id : string) : Host :=
  MkHost (delete id page) 1920 1080 1 [] 0 [].

Definition page_without (id : string) : State :=
  final_state (BasicWorldDemo_constructor (blank (browser_without id))).

End Stub.

End Demo.

(** ** The sky dome's fragment shader [_FS] *)

Module Sky.

Definition vec3 : Type := (R * R * R)%type.

Definition vx3 (v : vec3) : R := fst (fst v).
Definition vy3 (v : vec3) : R := snd (fst v).
Definition vz3 (v : vec3) : R := snd v.

(** [v + k] for a [vec3] and a [float]: [k] is added to every component. *)
Definition vadd_scalar (v : vec3) (k : R) : vec3 :=
  (vx3 v + k, vy3 v + k, vz3 v + k).

(** GLSL [length] and [normalize]. *)
Definition vlength3 (v : vec3) : R :=
  sqrt (vx3 v * vx3 v + vy3 v * vy3 v + vz3 v * vz3 v).

Definition normalize (v : vec3) : vec3 :=
  (vx3 v / vlength3 v, vy3 v / vlength3 v, vz3 v / vlength3 v).

(** GLSL [pow(x, y)].  The result is undefined for [x < 0] and for
    [x = 0] with [y <= 0]: [None]. *)
Definition pow (x y : R) : option R :=
  if Rlt_dec 0 x then Some (Rpower x y)
  else if Rlt_dec x 0 then None
  else if Rlt_dec 0 y then Some 0
  else None.

(** GLSL [mix(a, b, t)] = [a * (1 - t) + b * t], by component. *)
Definition mix (a b : vec3) (t : R) : vec3 :=
  (vx3 a * (1 - t) + vx3 b * t,
   vy3 a * (1 - t) + vy3 b * t,
   vz3 a * (1 - t) + vz3 b * t).

(** The weight of [topColor] in [main] of [_FS] (line 23); [None] where
    [pow] is undefined. *)
Definition sky_weight (offset exponent : R) (vWorldPosition : vec3)
    : option R :=
  let h := vy3 (normalize (vadd_scalar vWorldPosition offset)) in
  match pow (Rmax h 0.0) exponent with
  | Some q => Some (Rmax q 0.0)
  | None => None
  end.

(** [main] of [_FS] (lines 21-24): [gl_FragColor] as colour and alpha. *)
Definition FS_main (topColor bottomColor : vec3) (offset exponent : R)
    (vWorldPosition : vec3) : option (vec3 * R) :=
  match sky_weight offset exponent vWorldPosition with
  | Some t => Some (mix bottomColor topColor t, 1.0)
  | None => None
  end.

End Sky.

(** * Properties of the shader chunk *)

Section ShaderFacts.

Import Shader.

Variable rand : vec2 -> R.

(** The loop of [initPoissonSamples] overwrites the entries [i .. i+n-1]
    with the spiral samples and keeps the entries before [i]. *)
Lemma initPoissonSamples_loop_spec (n : nat) :
  forall (i : nat) (step rstep angle radius : R) (disk : list vec2),
    length disk = (i + n)%nat ->
    initPoissonSamples_loop n i step rstep angle radius disk =
    take i disk ++ map (spiral_sample step rstep angle radius) (seq 0 n).
Proof.
  induction n as [|n IH]; intros i step rstep angle radius disk Hlen.
  - simpl. rewrite app_nil_r, take_ge; [reflexivity | lia].
  - cbn [initPoissonSamples_loop].
    rewrite IH by (rewrite length_insert; lia).
    assert (Hi : (i < length disk)%nat) by lia.
    rewrite (take_S_r _ i (vscale (cos angle, sin angle) (Rpower radius 0.75)))
      by (apply list_lookup_insert_eq; exact Hi).
    rewrite take_insert_ge by lia.
    rewrite <- app_assoc. f_equal.
    cbn [seq map app]. f_equal.
    + unfold spiral_sample. simpl INR.
      rewrite !Rmult_0_l, !Rplus_0_r. reflexivity.
    + rewrite <- seq_shift, map_map. apply map_ext. intros k.
      unfold spiral_sample. rewrite S_INR.
      replace (angle + (INR k + 1) * step) with (angle + step + INR k * step)
        by ring.
      replace (radius + (INR k + 1) * rstep)
        with (radius + rstep + INR k * rstep) by ring.
      reflexivity.
Qed.

(** Closed form of the array [initPoissonSamples] leaves. *)
Lemma initPoissonSamples_closed_form (seed : vec2) (disk : list vec2) :
  length disk = NUM_SAMPLES ->
  initPoissonSamples rand seed disk =
  map (spiral_sample (PI2 * INR NUM_RINGS / INR NUM_SAMPLES)
         (1.0 / INR NUM_SAMPLES) (rand seed * PI2) (1.0 / INR NUM_SAMPLES))
    (seq 0 NUM_SAMPLES).
Proof.
  intros Hlen. unfold initPoissonSamples.
  rewrite initPoissonSamples_loop_spec by (rewrite Hlen; reflexivity).
  reflexivity.
Qed.

Lemma vlength_unit_scaled (a r : R) :
  0 <= r -> vlength (vscale (cos a, sin a) r) = r.
Proof.
  intros Hr. unfold vlength, vscale. cbn [fst snd].
  replace (cos a * r * (cos a * r) + sin a * r * (sin a * r))
    with (((sin a)² + (cos a)²) * (r * r)) by (unfold Rsqr; ring).
  rewrite sin2_cos2, Rmult_1_l. apply sqrt_square. exact Hr.
Qed.

Lemma Rpower_le_1 (x c : R) : 0 < x <= 1 -> 0 <= c -> Rpower x c <= 1.
Proof.
  intros Hx Hc.
  apply Rle_trans with (Rpower 1 c).
  - apply Rle_Rpower_l; [exact Hc | exact Hx].
  - right. unfold Rpower. rewrite ln_1, Rmult_0_r. apply exp_0.
Qed.

Lemma spiral_sample_in_unit_disk (step angle : R) (k : nat) :
  (k < NUM_SAMPLES)%nat ->
  vlength (spiral_sample step (1.0 / INR NUM_SAMPLES) angle
             (1.0 / INR NUM_SAMPLES) k) <= 1.
Proof.
  intros Hk. unfold spiral_sample.
  assert (Hk' : 0 <= INR k <= 16).
  { split; [apply pos_INR|].
    replace 16 with (INR 16) by (simpl; lra).
    apply le_INR. unfold NUM_SAMPLES in Hk. lia. }
  assert (H17 : INR NUM_SAMPLES = 17) by (simpl; lra).
  rewrite H17.
  rewrite vlength_unit_scaled.
  - apply Rpower_le_1; [|lra]. split; lra.
  - unfold Rpower. left. apply exp_pos.
Qed.

(** C9: for any seed (u,v), [initPoissonSamples] leaves exactly
    [NUM_SAMPLES] = 17 offsets in the array, each of Euclidean length at
    most 1, and the sequence depends on the seed alone: the same seed gives
    the same sequence, whatever the array held before. *)
Theorem initPoissonSamples_count_bound_deterministic
    (seed : vec2) (disk : list vec2) :
  length disk = NUM_SAMPLES ->
  length (initPoissonSamples rand seed disk) = 17%nat /\
  (forall p, In p (initPoissonSamples rand seed disk) -> vlength p <= 1) /\
  (forall (seed' : vec2) (disk' : list vec2),
     length disk' = NUM_SAMPLES -> seed' = seed ->
     initPoissonSamples rand seed' disk' = initPoissonSamples rand seed disk).
Proof.
  intros Hlen. split; [|split].
  - rewrite initPoissonSamples_closed_form by exact Hlen.
    rewrite length_map, length_seq. reflexivity.
  - intros p Hp.
    rewrite initPoissonSamples_closed_form in Hp by exact Hlen.
    apply in_map_iff in Hp. destruct Hp as [k [<- Hk]].
    apply in_seq in Hk. apply spiral_sample_in_unit_disk. lia.
  - intros seed' disk' Hlen' ->.
    rewrite !initPoissonSamples_closed_form by assumption. reflexivity.
Qed.

Variable shadowMap : vec2 -> R.

(** A blocker search over taps that are all at or behind the receiver
    counts nothing and only records the taps. *)
Lemma findBlocker_fold_no_blocker (disk : list vec2) (uv : vec2)
    (z sr : R) (idx : list nat) :
  forall acc : BlockerAcc,
    (forall i, In i idx ->
       ~ shadowMap (vadd uv (vscale (disk_get disk i) sr)) < z) ->
    fold_left (findBlocker_step shadowMap disk uv z sr) idx acc =
    MkBlockerAcc (blockerDepthSum acc) (numBlockers acc)
      (blockerTaps acc ++
       map (fun i => vadd uv (vscale (disk_get disk i) sr)) idx).
Proof.
  induction idx as [|i idx IH]; intros acc Hno.
  - simpl. rewrite app_nil_r. destruct acc; reflexivity.
  - cbn [fold_left]. rewrite IH by (intros j Hj; apply Hno; right; exact Hj).
    unfold findBlocker_step.
    destruct (Rlt_dec _ z) as [Hlt|_].
    + exfalso. apply (Hno i); [left; reflexivity | exact Hlt].
    + cbn [blockerDepthSum numBlockers blockerTaps map].
      rewrite <- app_assoc. reflexivity.
Qed.

(** A blocker search over a map that is everywhere in front of the
    receiver, with positive depths, counts every tap. *)
Lemma findBlocker_fold_all_blockers (disk : list vec2) (uv : vec2)
    (z sr : R) (idx : list nat) :
  forall acc : BlockerAcc,
    (forall p, 0 < shadowMap p < z) ->
    let r := fold_left (findBlocker_step shadowMap disk uv z sr) idx acc in
    numBlockers r = (numBlockers acc + length idx)%nat /\
    blockerDepthSum acc <= blockerDepthSum r.
Proof.
  induction idx as [|i idx IH]; intros acc Hall.
  - simpl. split; [lia | lra].
  - cbn [fold_left length]. cbv zeta in IH.
    destruct (IH (findBlocker_step shadowMap disk uv z sr acc i) Hall)
      as [Hn Hs].
    cbv zeta. rewrite Hn. unfold findBlocker_step in *.
    destruct (Rlt_dec _ z) as [_|Hge].
    + cbn [blockerDepthSum numBlockers] in *. split; [lia|].
      pose proof (Hall (vadd uv (vscale (disk_get disk i) sr))). lra.
    + exfalso. apply Hge. apply Hall.
Qed.

(** A filtering pass over a map that is everywhere in front of the
    receiver adds nothing to [sum]. *)
Lemma PCF_fold_all_occluded (z : R) (f : nat -> vec2) (idx : list nat) :
  forall acc : R * list vec2,
    (forall p, shadowMap p < z) ->
    fst (fold_left (fun acc i => PCF_tap shadowMap z (f i) acc) idx acc) =
    fst acc.
Proof.
  induction idx as [|i idx IH]; intros acc Hall; [reflexivity|].
  cbn [fold_left]. rewrite IH by exact Hall.
  unfold PCF_tap. destruct (Rle_dec z _) as [Hle|_]; [|reflexivity].
  exfalso. pose proof (Hall (f i)). lra.
Qed.

Lemma PCSS_no_blocker (coords : vec4) (disk : list vec2) :
  (forall i, (i < NUM_SAMPLES)%nat ->
     ~ shadowMap (blocker_tap rand coords disk i) < vz coords) ->
  PCSS rand shadowMap coords disk =
  (1, map (blocker_tap rand coords disk) (seq 0 NUM_SAMPLES)).
Proof.
  intros Hno. unfold PCSS, findBlocker, findBlocker_loop.
  rewrite findBlocker_fold_no_blocker.
  - cbn [numBlockers blockerTaps Nat.eqb app].
    destruct (Req_dec_T (-1.0) (-1.0)) as [_|Hne]; [|congruence].
    f_equal. lra.
  - intros i Hi. apply in_seq in Hi. apply Hno.
    unfold BLOCKER_SEARCH_NUM_SAMPLES in Hi. lia.
Qed.


(** C6: when the blocker search finds no blocker (no tap reads a depth
    below [zReceiver]), [PCSS] returns 1.0 and has fetched only the 17
    taps of the blocker search, so the filtering pass is not run; in
    particular a shadow map that is 1.0 everywhere gives 1.0 at
    [zReceiver] = 0.5 for every (u,v). *)
Theorem PCSS_no_blocker_short_circuit :
  (forall (coords : vec4) (disk : list vec2),
     (forall i, (i < NUM_SAMPLES)%nat ->
        ~ shadowMap (blocker_tap rand coords disk i) < vz coords) ->
     fst (PCSS rand shadowMap coords disk) = 1 /\
     snd (PCSS rand shadowMap coords disk) =
       map (blocker_tap rand coords disk) (seq 0 NUM_SAMPLES) /\
     length (snd (PCSS rand shadowMap coords disk)) = 17%nat) /\
  (forall (u v w : R) (disk : list vec2),
     (forall p, shadowMap p = 1.0) ->
     fst (PCSS rand shadowMap (Vec4 u v 0.5 w) disk) = 1).
Proof.
  split.
  - intros coords disk Hno. rewrite PCSS_no_blocker by exact Hno.
    cbn [fst snd]. rewrite length_map, length_seq. auto.
  - intros u v w disk Hone. rewrite PCSS_no_blocker; [reflexivity|].
    intros i _. rewrite Hone. cbn [vz]. lra.
Qed.







(** C7: for a fixed [zReceiver > 0], a smaller positive
    [avgBlockerDepth] never gives a smaller [filterRadius]. *)
Theorem filterRadius_antitone (zReceiver d1 d2 : R) :
  0 < zReceiver -> 0 < d1 -> d1 <= d2 ->
  filterRadius zReceiver d2 <= filterRadius zReceiver d1.
Proof.
  intros Hz Hd1 Hd.
  unfold filterRadius, penumbraSize, LIGHT_SIZE_UV, LIGHT_WORLD_SIZE,
    LIGHT_FRUSTUM_WIDTH, NEAR_PLANE.
  assert (Hinv : / d2 <= / d1) by (apply Rinv_le_contravar; assumption).
  assert (Hratio : (zReceiver - d2) / d2 <= (zReceiver - d1) / d1).
  { replace ((zReceiver - d2) / d2) with (zReceiver * / d2 - 1)
      by (field; lra).
    replace ((zReceiver - d1) / d1) with (zReceiver * / d1 - 1)
      by (field; lra).
    apply Rplus_le_compat_r. apply Rmult_le_compat_l; lra. }
  assert (Hk : 0 <= 0.05 / 3.75 * 1.0 / zReceiver).
  { apply Rmult_le_pos; [lra|]. left. apply Rinv_0_lt_compat. exact Hz. }
  replace ((zReceiver - d2) / d2 * (0.05 / 3.75) * 1.0 / zReceiver)
    with ((zReceiver - d2) / d2 * (0.05 / 3.75 * 1.0 / zReceiver))
    by (field; lra).
  replace ((zReceiver - d1) / d1 * (0.05 / 3.75) * 1.0 / zReceiver)
    with ((zReceiver - d1) / d1 * (0.05 / 3.75 * 1.0 / zReceiver))
    by (field; lra).
  apply Rmult_le_compat_r; assumption.
Qed.

End ShaderFacts.

Lemma initPoissonSamples_count_bound_deterministic_witness :
  length (replicate 17 ((0, 0) : Shader.vec2)) = Shader.NUM_SAMPLES /\
  length (Shader.initPoissonSamples (fun _ => 0) (0, 0)
            (replicate 17 (0, 0))) = 17%nat.
Proof.
  split; [reflexivity|].
  apply (initPoissonSamples_count_bound_deterministic (fun _ => 0) (0, 0)
           (replicate 17 (0, 0))).
  reflexivity.
Defined.

Lemma PCSS_no_blocker_short_circuit_witness :
  fst (Shader.PCSS (fun _ => 0) (fun _ => 1.0) (Shader.Vec4 0 0 0.5 0)
         (replicate 17 (0, 0))) = 1 /\
  length (snd (Shader.PCSS (fun _ => 0) (fun _ => 1.0)
                 (Shader.Vec4 0 0 0.5 0) (replicate 17 (0, 0)))) = 17%nat.
Proof.
  split.
  - apply (proj2 (PCSS_no_blocker_short_circuit (fun _ => 0) (fun _ => 1.0))).
    intros p. reflexivity.
  - apply (proj1 (PCSS_no_blocker_short_circuit (fun _ => 0) (fun _ => 1.0))).
    intros i _. cbn [Shader.vz]. lra.
Defined.



Lemma filterRadius_antitone_witness :
  Shader.filterRadius 2 1.5 <= Shader.filterRadius 2 1.
Proof.
  apply (filterRadius_antitone 2 1 1.5); lra.
Defined.

(** * Properties of the session and the frame loop *)

Section DemoFacts.

Import Demo.

Context `{C : Collaborators}.

(** Unfold the methods and the monad down to matches on results. *)
Ltac js_unfold :=
  unfold RAF_callback, Step_, RAF_, _OnStart, _OnReplay, _ResetGame,
    _ResetPlayer, _InitializeScene, _OnCharacterSelect, OnWindowResize_,
    element, getElementById, element_put, scene_do, threejs_do, camera_do,
    this_obj, this, emit, assign, host_do, deref, gets, modify, throw,
    bind, ret.

(** Name every field of the state. *)
Ltac js_fields s :=
  destruct s as [[r sc cam w p b prev started over ch]
                 [doc iw ih dpr wl pf lg]];
  unfold ready, constructed, has_element, sessionState, emitted, actors,
    flags_ok in *;
  cbn [app host threejs_ scene_ camera_ world_ player_ background_
       previousRAF_ _gameStarted _gameOver _currentCharacter
       document innerWidth innerHeight devicePixelRatio windowListeners
       pendingFrames log] in *.

Ltac js_some :=
  repeat match goal with
  | H : _ /\ _ |- _ => destruct H
  | H : is_Some _ |- _ => destruct H as [? H]
  end; subst.

(** Case analysis on whatever the run is stuck on. *)
Ltac js_cases :=
  repeat (cbn;
    match goal with
    | |- context [match ?x with Some _ => _ | None => _ end] =>
        destruct x
    | |- context [if ?b then _ else _] => destruct b
    end);
  cbn.

(** C3: on a tick in the Playing state the loop calls the player's, then
    the world's, then the background's [Update], each once and in that
    order, with the elapsed seconds of the tick: the log holds the three
    calls in that order, and the player, the world, the background and
    the scene afterwards are those obtained by applying [Player_Update],
    then [WorldManager_Update] to its result, then [Background_Update] to
    that result.  On a tick in the Idle or GameOver state no [Update] is
    called: the log holds none and the four are as before. *)
Theorem tick_update_order (s : State) (t : R) (pl : Player)
    (wm : WorldManager) (bg : Background) (scn : Scene Ext) :
  player_ (app s) = Some pl -> world_ (app s) = Some wm ->
  background_ (app s) = Some bg -> scene_ (app s) = Some scn ->
  let dt := (t - default t (previousRAF_ (app s))) / 1000.0 in
  let s' := final_state (RAF_callback t s) in
  let r1 := Player_Update dt pl wm scn in
  let r2 := WorldManager_Update dt (snd (fst r1)) (snd r1) in
  let r3 := Background_Update dt bg (snd r2) in
  (sessionState s = Playing ->
   filter is_update (emitted (RAF_callback t) s) =
   [PlayerUpdate dt; WorldUpdate dt; BackgroundUpdate dt] /\
   actors s' =
   (Some (snd r3), Some (fst r2), Some (fst (fst r1)), Some (fst r3))) /\
  (sessionState s = Idle \/ sessionState s = GameOver ->
   filter is_update (emitted (RAF_callback t) s) = [] /\
   actors s' = actors s).
Proof.
  intros Hp Hw Hb Hsc dt s' r1 r2 r3. subst dt s' r1 r2 r3.
  js_fields s. subst.
  split.
  - intros Hst. destruct started, over; try discriminate.
    js_unfold.
    destruct prev; cbn;
      (destruct (Player_gameOver _); cbn;
       [destruct (doc !! "game-over"); cbn|]);
      destruct r; cbn; try destruct cam; cbn;
      rewrite <- ?app_assoc, drop_app_length; split; reflexivity.
  - intros Hst.
    assert (Hnp : negb started || over = true)
      by (destruct started, over; destruct Hst; try discriminate;
          reflexivity).
    js_unfold. destruct prev; cbn; rewrite Hnp; cbn;
      destruct r; cbn; try destruct cam; cbn;
      rewrite <- ?app_assoc, drop_app_length; split; reflexivity.
Qed.

(** C8: every tick calls [render] exactly once, with the scene and the
    camera the instance holds, in every session state. *)
Theorem render_once_every_tick (s : State) (t : R) :
  constructed s -> has_element "game-over" s ->
  exists (s' : State) (sc : Scene Ext) (cam : Camera),
    RAF_callback t s = Normal tt s' /\
    scene_ (app s') = Some sc /\
    camera_ (app s') = Some cam /\
    filter is_render (emitted (RAF_callback t) s) = [Render sc cam].
Proof.
  intros Hc Hel. js_fields s. js_some.
  js_unfold.
  destruct prev, started, over; cbn;
    try (destruct (Player_gameOver _); cbn; [rewrite Hel; cbn|]);
    do 3 eexists; (split; [reflexivity|]);
    cbn; (split; [reflexivity|]); (split; [reflexivity|]);
    rewrite <- !app_assoc, drop_app_length; reflexivity.
Qed.

(** C4 (as the code has it): on the first tick the timestamp is recorded
    as the previous timestamp and the tick then runs like any other, with
    an elapsed time of (t - t) / 1000 = 0: the next tick is requested, the
    three [Update]s are called with 0 when the session is Playing, and
    [render] is called once.  No time from before the loop started reaches
    an update or a render. *)
Theorem first_tick_zero_delta (s : State) (t : R) :
  constructed s -> has_element "game-over" s ->
  previousRAF_ (app s) = None ->
  exists (s' : State) (sc : Scene Ext) (cam : Camera),
    RAF_callback t s = Normal tt s' /\
    previousRAF_ (app s') = Some t /\
    emitted (RAF_callback t) s =
    RequestAnimationFrame ::
    match sessionState s with
    | Playing => [PlayerUpdate 0; WorldUpdate 0; BackgroundUpdate 0]
    | _ => []
    end ++ [Render sc cam].
Proof.
  intros Hc Hel Hprev. js_fields s. js_some.
  assert (Hdt : (t - t) / 1000.0 = 0) by lra.
  js_unfold.
  destruct started, over; cbn; rewrite ?Hdt;
    try (destruct (Player_gameOver _); cbn; [rewrite Hel; cbn|]);
    do 3 eexists; (split; [reflexivity|]);
    cbn; (split; [reflexivity|]);
    rewrite <- !app_assoc, drop_app_length; reflexivity.
Qed.

(** C5 (as the code has it): [_OnReplay] removes every child from the
    scene ([scene.clear()]) and rebuilds it with [_InitializeScene].
    Afterwards the scene has the background colour and the fog of the
    routine and holds the directional light, the hemisphere light, the
    ground and the sky dome in that order, followed by whatever the world,
    player and background constructors add, run in that order; the world,
    the player, built for the selected character on that world, and the
    background are the ones those constructors return.  Nothing of the
    previous generation enters the result; [_gameOver] is cleared and the
    session is Playing.  The result is what [_InitializeScene], the
    routine of startup, builds in a new scene for the same character. *)
Theorem replay_rebuilds_baseline (s : State) (sel : Element) :
  is_Some (scene_ (app s)) ->
  document (host s) !! "character-select" = Some sel ->
  has_element "game-over" s ->
  let rig :=
    MkScene [DirectionalLight; HemisphereLight; Ground; Sky]
      (Some 0x808080%Z) (Some (FogExp2 0x89b2eb%Z 0.00125)) in
  let built := fun c : option string =>
    let rw := WorldManager_new rig in
    let rp := Player_new (snd rw) (fst rw) c in
    let rb := Background_new (snd rp) in
    (Some (snd rb), Some (fst rw), Some (fst rp), Some (fst rb)) in
  (exists s' : State,
     _OnReplay s = Normal tt s' /\
     actors s' = built (Some (value sel)) /\
     _currentCharacter (app s') = Some (value sel) /\
     _gameOver (app s') = false /\
     _gameStarted (app s') = true /\
     sessionState s' = Playing) /\
  (forall (a : App) (h : Host),
     scene_ a = Some Scene_new ->
     actors (final_state (_InitializeScene (MkState a h)))
     = built (_currentCharacter a)).
Proof.
  intros Hsc Hsel Hel rig built. subst rig built. split.
  - js_fields s. js_some. js_unfold. cbn.
    rewrite Hsel. cbn. rewrite Hel. cbn.
    eexists. split; [reflexivity|]. cbn. auto.
  - clear. intros a h Hnew.
    destruct a as [r sc cam w p b prev started over ch].
    cbn [scene_ _currentCharacter] in *. subst sc.
    unfold actors. js_unfold. cbn. reflexivity.
Qed.


(** ** Invariants of the page

    A property that the constructor establishes and that every method
    keeps, also along a run that throws, holds in every reachable
    state. *)
Section Preservation.

Variable I : State -> Prop.

Hypothesis I_document : forall (s : State) (id : string) (el : Element),
  I s ->
  I (MkState (app s)
       (set_document (<[ id := el ]> (document (host s))) (host s))).
Hypothesis I_innerSize : forall (s : State) (w h : R),
  I s -> I (MkState (app s) (set_innerSize w h (host s))).
Hypothesis I_pendingFrames : forall (s : State) (n : nat),
  I s -> I (MkState (app s) (set_pendingFrames n (host s))).
Hypothesis I_OnStart : forall s, I s -> I (final_state (_OnStart s)).
Hypothesis I_OnReplay : forall s, I s -> I (final_state (_OnReplay s)).
Hypothesis I_OnCharacterSelect : forall target s,
  I s -> I (final_state (_OnCharacterSelect target s)).
Hypothesis I_OnWindowResize : forall s,
  I s -> I (final_state (OnWindowResize_ s)).
Hypothesis I_RAF_callback : forall t s,
  I s -> I (final_state (RAF_callback t s)).

Lemma run_handler_preserves (target : string) (h : Handler) (s : State) :
  I s -> I (final_state (run_handler target h s)).
Proof. destruct h; cbn [run_handler]; auto. Qed.

Lemma run_listeners_preserves (type target : string)
    (ls : list (string * Handler)) :
  forall s : State,
    I s -> I (final_state (run_listeners type target ls s)).
Proof.
  induction ls as [|[ty h] ls IH]; intros s Hs; [exact Hs|].
  cbn [run_listeners]. unfold bind.
  destruct (decide (ty = type)).
  - unfold settle. apply IH. apply run_handler_preserves. exact Hs.
  - unfold ret. apply IH. exact Hs.
Qed.

Lemma run_frames_preserves (n : nat) (t : R) :
  forall s : State, I s -> I (final_state (run_frames n t s)).
Proof.
  induction n as [|n IH]; intros s Hs; [exact Hs|].
  cbn [run_frames]. unfold bind, settle. apply IH. auto.
Qed.

Lemma dispatch_preserves (ev : HostEvent) (s : State) :
  I s -> I (final_state (dispatch ev s)).
Proof.
  intros Hs. destruct ev as [id|id v|w h|t]; cbn [dispatch].
  - unfold bind, getElementById, gets.
    destruct (document (host s) !! id) as [el|]; [|exact Hs].
    destruct (onclick el) as [h|]; [|exact Hs].
    unfold settle. cbn [final_state]. apply run_handler_preserves. exact Hs.
  - unfold bind, getElementById, gets.
    destruct (document (host s) !! id) as [el|]; [|exact Hs].
    unfold element_put, host_do, modify.
    apply run_listeners_preserves. apply I_document. exact Hs.
  - unfold bind, host_do, modify, gets.
    apply run_listeners_preserves. apply I_innerSize. exact Hs.
  - unfold bind, host_do, modify, gets.
    apply run_frames_preserves. apply I_pendingFrames. exact Hs.
Qed.

Lemma reachable_preserves (h : Host) (s : State) :
  I (final_state (BasicWorldDemo_constructor (blank h))) ->
  reachable h s -> I s.
Proof.
  intros Hnew Hreach. induction Hreach as [|s ev _ IH].
  - exact Hnew.
  - apply dispatch_preserves. exact IH.
Qed.

End Preservation.

(** Every method keeps the flags consistent, also when it throws. *)

Lemma constructor_flags_ok (h : Host) :
  flags_ok (final_state (BasicWorldDemo_constructor (blank h))).
Proof.
  unfold flags_ok, BasicWorldDemo_constructor, _Initialize, blank.
  js_unfold. js_cases; discriminate.
Qed.

Lemma OnStart_flags_ok (s : State) :
  flags_ok s -> flags_ok (final_state (_OnStart s)).
Proof. js_fields s. js_unfold. js_cases; auto. Qed.

Lemma OnReplay_flags_ok (s : State) :
  flags_ok s -> flags_ok (final_state (_OnReplay s)).
Proof. js_fields s. js_unfold. js_cases; auto. Qed.

Lemma OnCharacterSelect_flags_ok (target : string) (s : State) :
  flags_ok s -> flags_ok (final_state (_OnCharacterSelect target s)).
Proof. js_fields s. js_unfold. js_cases; auto. Qed.

Lemma OnWindowResize_flags_ok (s : State) :
  flags_ok s -> flags_ok (final_state (OnWindowResize_ s)).
Proof. js_fields s. js_unfold. js_cases; auto. Qed.

Lemma RAF_callback_flags_ok (t : R) (s : State) :
  flags_ok s -> flags_ok (final_state (RAF_callback t s)).
Proof.
  js_fields s. js_unfold. destruct started, over; js_cases; auto.
Qed.

(** Every method keeps the instance ready for the next tick. *)

Ltac js_ready :=
  js_some; try discriminate;
  repeat split; rewrite ?lookup_insert_is_Some'; eauto.

Lemma constructor_ready (h : Host) (s : State) :
  is_Some (document h !! "game-over") ->
  BasicWorldDemo_constructor (blank h) = Normal tt s -> ready s.
Proof.
  unfold BasicWorldDemo_constructor, _Initialize, blank.
  js_unfold. intros Hel. js_cases; try discriminate.
  intros [= <-]. unfold ready, constructed, has_element. cbn. js_ready.
Qed.

Lemma OnStart_ready (s : State) : ready s -> ready (final_state (_OnStart s)).
Proof. js_fields s. intros Hr. js_unfold. js_cases; js_ready. Qed.

Lemma OnReplay_ready (s : State) :
  ready s -> ready (final_state (_OnReplay s)).
Proof. js_fields s. intros Hr. js_unfold. js_cases; js_ready. Qed.

Lemma OnCharacterSelect_ready (target : string) (s : State) :
  ready s -> ready (final_state (_OnCharacterSelect target s)).
Proof. js_fields s. intros Hr. js_unfold. js_cases; js_ready. Qed.

Lemma OnWindowResize_ready (s : State) :
  ready s -> ready (final_state (OnWindowResize_ s)).
Proof. js_fields s. intros Hr. js_unfold. js_cases; js_ready. Qed.

Lemma RAF_callback_ready (t : R) (s : State) :
  ready s -> ready (final_state (RAF_callback t s)).
Proof.
  js_fields s. intros Hr. js_unfold.
  destruct started, over; js_cases; js_ready.
Qed.

(** Once the constructor has completed on a page with the game-over
    panel, every state the page reaches is ready for a tick. *)
Lemma reachable_ready (h : Host) (s : State) :
  is_Some (document h !! "game-over") ->
  (exists s0, BasicWorldDemo_constructor (blank h) = Normal tt s0) ->
  reachable h s -> ready s.
Proof.
  intros Hel [s0 Hs0] Hreach.
  apply (reachable_preserves ready) with (h := h); auto.
  - intros s1 id el [Hc Hp]. split; [exact Hc|].
    unfold has_element in *. cbn. rewrite lookup_insert_is_Some'. auto.
  - apply OnStart_ready.
  - apply OnReplay_ready.
  - apply OnCharacterSelect_ready.
  - apply OnWindowResize_ready.
  - apply RAF_callback_ready.
  - rewrite Hs0. cbn [final_state]. eapply constructor_ready; eassumption.
Qed.

(** C10: in every reachable state, [_gameOver] is set only if
    [_gameStarted] is set. *)
Theorem gameOver_implies_gameStarted (h : Host) (s : State) :
  reachable h s ->
  _gameOver (app s) = true -> _gameStarted (app s) = true.
Proof.
  intros Hreach. change (flags_ok s).
  apply (reachable_preserves flags_ok) with (h := h); auto.
  - apply OnStart_flags_ok.
  - apply OnReplay_flags_ok.
  - apply OnCharacterSelect_flags_ok.
  - apply OnWindowResize_flags_ok.
  - apply RAF_callback_flags_ok.
  - apply constructor_flags_ok.
Qed.

Lemma reachable_after (h : Host) (evs : list HostEvent) :
  forall s : State, reachable h s ->
    reachable h (fold_left (fun s ev => final_state (dispatch ev s)) evs s).
Proof.
  induction evs as [|ev evs IH]; intros s Hs; [exact Hs|].
  cbn [fold_left]. apply IH. apply reachable_event. exact Hs.
Defined.

End DemoFacts.

(** * The class run on the test page *)

Lemma started_page_constructed : Demo.constructed Demo.Stub.started_page.
Proof. repeat split; vm_compute; eexists; reflexivity. Defined.

Lemma playing_page_constructed : Demo.constructed Demo.Stub.playing_page.
Proof. repeat split; vm_compute; eexists; reflexivity. Defined.

Lemma over_page_reachable :
  Demo.reachable Demo.Stub.browser Demo.Stub.over_page.
Proof.
  unfold Demo.Stub.over_page, Demo.Stub.after.
  apply reachable_after. apply Demo.reachable_new.
Defined.

Lemma tick_update_order_witness :
  Demo.sessionState Demo.Stub.playing_page = Demo.Playing /\
  length (filter Demo.is_update
            (Demo.emitted (Demo.RAF_callback 16) Demo.Stub.playing_page))
    = 3%nat /\
  Demo.player_
    (Demo.app
       (Demo.final_state (Demo.RAF_callback 16 Demo.Stub.playing_page)))
    = Some (Demo.Stub.MkStubPlayer (Some "TRex") 1).
Proof.
  assert (Hst : Demo.sessionState Demo.Stub.playing_page = Demo.Playing)
    by (vm_compute; reflexivity).
  split; [exact Hst|].
  destruct (tick_update_order Demo.Stub.playing_page 16
              (Demo.Stub.MkStubPlayer (Some "TRex") 0) O O
              (Demo.MkScene
                 [Demo.DirectionalLight; Demo.HemisphereLight; Demo.Ground;
                  Demo.Sky; Demo.External "player"]
                 (Some 0x808080%Z)
                 (Some (Demo.FogExp2 0x89b2eb%Z 0.00125))))
    as [Hplaying _].
  - vm_compute. reflexivity.
  - vm_compute. reflexivity.
  - vm_compute. reflexivity.
  - vm_compute. reflexivity.
  - destruct (Hplaying Hst) as [Hlog Hactors].
    split; [rewrite Hlog; reflexivity|].
    change (Demo.player_
              (Demo.app
                 (Demo.final_state
                    (Demo.RAF_callback 16 Demo.Stub.playing_page))))
      with (snd (fst (Demo.actors
                        (Demo.final_state
                           (Demo.RAF_callback 16 Demo.Stub.playing_page))))).
    rewrite Hactors. reflexivity.
Defined.

Lemma render_once_every_tick_witness :
  exists (s' : Demo.State) (sc : Demo.Scene Demo.Ext) (cam : Demo.Camera),
    Demo.RAF_callback 16 Demo.Stub.started_page = Demo.Normal tt s' /\
    Demo.scene_ (Demo.app s') = Some sc /\
    Demo.camera_ (Demo.app s') = Some cam /\
    filter Demo.is_render
      (Demo.emitted (Demo.RAF_callback 16) Demo.Stub.started_page)
    = [Demo.Render sc cam].
Proof.
  apply (render_once_every_tick Demo.Stub.started_page 16).
  - exact started_page_constructed.
  - vm_compute. eexists. reflexivity.
Defined.

(** C4 fails on the code: the first tick on the test page (no previous
    timestamp yet) calls [render], and when play was clicked before the
    first frame it also calls the three [Update]s. *)
Lemma first_tick_counterexample :
  Demo.previousRAF_ (Demo.app Demo.Stub.started_page) = None /\
  length (filter Demo.is_render
            (Demo.emitted (Demo.RAF_callback 16) Demo.Stub.started_page))
    = 1%nat /\
  Demo.previousRAF_ (Demo.app Demo.Stub.playing_page) = None /\
  length (filter Demo.is_update
            (Demo.emitted (Demo.RAF_callback 16) Demo.Stub.playing_page))
    = 3%nat.
Proof. vm_compute. repeat split; reflexivity. Qed.

Lemma first_tick_zero_delta_witness :
  exists (s' : Demo.State) (sc : Demo.Scene Demo.Ext) (cam : Demo.Camera),
    Demo.RAF_callback 16 Demo.Stub.playing_page = Demo.Normal tt s' /\
    Demo.previousRAF_ (Demo.app s') = Some 16 /\
    Demo.emitted (Demo.RAF_callback 16) Demo.Stub.playing_page =
    Demo.RequestAnimationFrame ::
    match Demo.sessionState Demo.Stub.playing_page with
    | Demo.Playing =>
        [Demo.PlayerUpdate 0; Demo.WorldUpdate 0; Demo.BackgroundUpdate 0]
    | _ => []
    end ++ [Demo.Render sc cam].
Proof.
  apply (first_tick_zero_delta Demo.Stub.playing_page 16).
  - exact playing_page_constructed.
  - vm_compute. eexists. reflexivity.
  - vm_compute. reflexivity.
Defined.

(** C5 fails on the code: on the test page the scene rebuilt by replay
    is not identical to the one of the fresh startup.  The startup player
    was built before [_currentCharacter] was assigned, for no character;
    the replayed one is built for the dropdown's. *)
Lemma replay_not_startup_counterexample :
  Demo.player_ (Demo.app Demo.Stub.started_page)
    = Some (Demo.Stub.MkStubPlayer None 0) /\
  match Demo._OnReplay Demo.Stub.over_page with
  | Demo.Normal _ s' =>
      Demo.player_ (Demo.app s')
        = Some (Demo.Stub.MkStubPlayer (Some "TRex") 0) /\
      Demo.actors s' <> Demo.actors Demo.Stub.started_page
  | Demo.Throw _ _ => False
  end.
Proof. vm_compute. repeat split; (reflexivity || discriminate). Qed.

Lemma replay_rebuilds_baseline_witness :
  exists s' : Demo.State,
    Demo._OnReplay Demo.Stub.over_page = Demo.Normal tt s' /\
    Demo.scene_ (Demo.app s')
      = Some (Demo.MkScene
                [Demo.DirectionalLight; Demo.HemisphereLight; Demo.Ground;
                 Demo.Sky; Demo.External "player"]
                (Some 0x808080%Z)
                (Some (Demo.FogExp2 0x89b2eb%Z 0.00125))) /\
    Demo.player_ (Demo.app s')
      = Some (Demo.Stub.MkStubPlayer (Some "TRex") 0) /\
    Demo.sessionState s' = Demo.Playing.
Proof.
  destruct (replay_rebuilds_baseline Demo.Stub.over_page Demo.Stub.dropdown)
    as [(s' & Hrun & Hactors & _ & _ & _ & Hst) _].
  - vm_compute. eexists. reflexivity.
  - vm_compute. reflexivity.
  - vm_compute. eexists. reflexivity.
  - exists s'. split; [exact Hrun|].
    pose proof (f_equal (fun x => fst (fst (fst x))) Hactors) as Hscene.
    pose proof (f_equal (fun x => snd (fst x)) Hactors) as Hplayer.
    split; [exact Hscene|]. split; [exact Hplayer | exact Hst].
Defined.



Lemma gameOver_implies_gameStarted_witness :
  Demo._gameOver (Demo.app Demo.Stub.over_page) = true /\
  Demo._gameStarted (Demo.app Demo.Stub.over_page) = true.
Proof.
  assert (Hover : Demo._gameOver (Demo.app Demo.Stub.over_page) = true)
    by (vm_compute; reflexivity).
  split; [exact Hover|].
  exact (gameOver_implies_gameStarted Demo.Stub.browser Demo.Stub.over_page
           over_page_reachable Hover).
Defined.

(** * Further properties of the shader chunk *)

Section ShaderMore.

Import Shader.

Variable rand : vec2 -> R.
Variable shadowMap : vec2 -> R.

(** A filtering pass adds between 0 and one per tap to [sum] and records
    one coordinate per tap. *)
Lemma PCF_fold_bounds (z : R) (f : nat -> vec2) (idx : list nat) :
  forall acc : R * list vec2,
    let r := fold_left (fun acc i => PCF_tap shadowMap z (f i) acc) idx acc in
    fst acc <= fst r <= fst acc + INR (length idx) /\
    length (snd r) = (length (snd acc) + length idx)%nat.
Proof.
  induction idx as [|i idx IH]; intros acc.
  - cbn. split; [lra | lia].
  - cbn [fold_left]. cbv zeta in IH |- *.
    destruct (IH (PCF_tap shadowMap z (f i) acc)) as [Hs Hl].
    change (length (i :: idx)) with (S (length idx)).
    rewrite S_INR, Hl. unfold PCF_tap in *.
    destruct (Rle_dec z (shadowMap (f i))); cbn [fst snd] in *;
      rewrite ?length_app in *; cbn [length] in *;
      pose proof (pos_INR (length idx)); split; (lra || lia).
Qed.

(** A filtering pass over taps that are all lit counts every tap. *)
Lemma PCF_fold_all_lit (z : R) (f : nat -> vec2) (idx : list nat) :
  forall acc : R * list vec2,
    (forall p, z <= shadowMap p) ->
    fst (fold_left (fun acc i => PCF_tap shadowMap z (f i) acc) idx acc) =
    fst acc + INR (length idx).
Proof.
  induction idx as [|i idx IH]; intros acc Hall.
  - cbn. lra.
  - cbn [fold_left]. rewrite IH by exact Hall.
    change (length (i :: idx)) with (S (length idx)). rewrite S_INR.
    unfold PCF_tap. destruct (Rle_dec z _) as [_|Hn]; cbn [fst]; [lra|].
    exfalso. apply Hn. apply Hall.
Qed.

Lemma PCF_Filter_range (disk : list vec2) (uv : vec2) (z fr : R) :
  0 <= fst (PCF_Filter shadowMap disk uv z fr) <= 1 /\
  length (snd (PCF_Filter shadowMap disk uv z fr)) = 34%nat.
Proof.
  unfold PCF_Filter. cbn [fst snd].
  set (f1 := fun i => vadd uv (vscale (disk_get disk i) fr)).
  set (f2 := fun i => vadd uv (vscale (vneg_yx (disk_get disk i)) fr)).
  destruct (PCF_fold_bounds z f1 (seq 0 PCF_NUM_SAMPLES) (0.0, []))
    as [Hs1 Hl1].
  cbv zeta in Hs1, Hl1.
  set (acc1 := fold_left _ (seq 0 PCF_NUM_SAMPLES) (0.0, [])) in *.
  destruct (PCF_fold_bounds z f2 (seq 0 PCF_NUM_SAMPLES) acc1) as [Hs2 Hl2].
  cbv zeta in Hs2, Hl2.
  set (acc2 := fold_left _ (seq 0 PCF_NUM_SAMPLES) acc1) in *.
  rewrite length_seq in *. cbn [fst snd length] in *.
  assert (H17 : INR PCF_NUM_SAMPLES = 17) by (simpl; lra).
  rewrite H17 in *.
  split; [|rewrite Hl2, Hl1; reflexivity].
  split.
  - apply Rmult_le_pos; [lra|]. left. apply Rinv_0_lt_compat. lra.
  - apply Rmult_le_reg_r with (2.0 * 17); [lra|].
    unfold Rdiv. rewrite Rmult_assoc, Rinv_l by lra. lra.
Qed.

(** X1: [PCF_Filter] always returns a value between 0 and 1 and fetches
    exactly 34 taps (two passes of 17), whatever the shadow map, the
    array, the coordinate and the radius. *)
Theorem PCF_Filter_unit_interval (disk : list vec2) (uv : vec2) (z fr : R) :
  0 <= fst (PCF_Filter shadowMap disk uv z fr) <= 1 /\
  length (snd (PCF_Filter shadowMap disk uv z fr)) = 34%nat.
Proof. apply PCF_Filter_range. Qed.

(** X2: [PCF_Filter] returns 1 over a map that is nowhere in front of the
    receiver and 0 over a map that is everywhere in front of it, for every
    coordinate and every filter radius. *)
Theorem PCF_Filter_extremes (disk : list vec2) (uv : vec2) (z fr : R) :
  ((forall p, z <= shadowMap p) ->
   fst (PCF_Filter shadowMap disk uv z fr) = 1) /\
  ((forall p, shadowMap p < z) ->
   fst (PCF_Filter shadowMap disk uv z fr) = 0).
Proof.
  assert (H17 : INR PCF_NUM_SAMPLES = 17) by (simpl; lra).
  split; intros Hall; unfold PCF_Filter; cbn [fst].
  - rewrite !PCF_fold_all_lit by exact Hall.
    rewrite length_seq, H17. cbn [fst]. lra.
  - rewrite !(PCF_fold_all_occluded shadowMap) by exact Hall.
    cbn [fst]. rewrite H17. lra.
Qed.

(** X3: [PCSS] always returns an attenuation between 0 and 1, and it
    fetches either the 17 taps of the blocker search alone or those and
    the 34 taps of the filter. *)
Theorem PCSS_unit_interval (coords : vec4) (disk : list vec2) :
  0 <= fst (PCSS rand shadowMap coords disk) <= 1 /\
  (length (snd (PCSS rand shadowMap coords disk)) = 17%nat \/
   length (snd (PCSS rand shadowMap coords disk)) = 51%nat).
Proof.
  unfold PCSS.
  set (uv := (vx coords, vy coords)).
  set (disk' := initPoissonSamples rand uv disk).
  assert (Htaps : length (snd (findBlocker shadowMap disk' uv (vz coords)))
                  = 17%nat).
  { unfold findBlocker, findBlocker_loop.
    set (sr := LIGHT_SIZE_UV * (vz coords - NEAR_PLANE) / vz coords).
    assert (Hgen : forall idx acc,
      length (blockerTaps
        (fold_left (findBlocker_step shadowMap disk' uv (vz coords) sr)
           idx acc)) = (length (blockerTaps acc) + length idx)%nat).
    { induction idx as [|i idx IH]; intros acc; [cbn; lia|].
      cbn [fold_left]. rewrite IH. unfold findBlocker_step.
      destruct (Rlt_dec _ _); cbn [blockerTaps]; rewrite length_app;
        cbn [length]; lia. }
    destruct (Nat.eqb _ 0); cbn [snd]; rewrite Hgen, length_seq;
      reflexivity. }
  destruct (findBlocker shadowMap disk' uv (vz coords)) as [avg taps1].
  cbn [snd] in Htaps.
  destruct (Req_dec_T avg (-1.0)) as [_|_].
  - cbn [fst snd]. split; [lra | left; exact Htaps].
  - pose proof (PCF_Filter_range disk' uv (vz coords)
                  (filterRadius (vz coords) avg)) as [Hr Hl].
    destruct (PCF_Filter shadowMap disk' uv (vz coords) _) as [r taps2].
    cbn [fst snd] in *. split; [exact Hr|].
    right. rewrite length_app, Htaps, Hl. reflexivity.
Qed.

(** The blocker search only ever adds blockers, and what it adds to the
    sum lies between [lo] and [z] per blocker when the map is bounded
    below by [lo]. *)
Lemma findBlocker_fold_sum_bounds (disk : list vec2) (uv : vec2)
    (z sr lo : R) (idx : list nat) :
  (forall p, lo <= shadowMap p) ->
  forall acc : BlockerAcc,
    let r := fold_left (findBlocker_step shadowMap disk uv z sr) idx acc in
    (numBlockers acc <= numBlockers r)%nat /\
    blockerDepthSum acc + lo * (INR (numBlockers r) - INR (numBlockers acc))
      <= blockerDepthSum r /\
    blockerDepthSum r
      <= blockerDepthSum acc + z * (INR (numBlockers r) - INR (numBlockers acc))
    /\
    ((numBlockers acc < numBlockers r)%nat ->
     blockerDepthSum r
       < blockerDepthSum acc
         + z * (INR (numBlockers r) - INR (numBlockers acc))).
Proof.
  intros Hlo. induction idx as [|i idx IH]; intros acc.
  - cbn. repeat split; try lia; try lra.
  - cbn [fold_left]. cbv zeta in IH |- *.
    destruct (IH (findBlocker_step shadowMap disk uv z sr acc i))
      as (Hn & Hl & Hu & Hs).
    set (r := fold_left _ idx _) in *.
    unfold findBlocker_step in Hn, Hl, Hu, Hs.
    pose proof (Hlo (vadd uv (vscale (disk_get disk i) sr))) as Hd.
    destruct (Rlt_dec _ z) as [Hlt|Hge];
      cbn [blockerDepthSum numBlockers] in Hn, Hl, Hu, Hs.
    + rewrite S_INR in Hl, Hu, Hs.
      split; [lia|]. split; [nra|]. split; [nra|].
      intros _.
      destruct (Nat.eq_dec (S (numBlockers acc)) (numBlockers r)) as [E|E].
      * rewrite <- E, S_INR in *. nra.
      * assert (Hs' : (S (numBlockers acc) < numBlockers r)%nat) by lia.
        specialize (Hs Hs'). nra.
    + split; [lia|]. split; [exact Hl|]. split; [exact Hu|]. exact Hs.
Qed.

(** A tap that reads a blocker makes the count grow. *)
Lemma findBlocker_fold_counts (disk : list vec2) (uv : vec2)
    (z sr : R) (idx : list nat) (i : nat) :
  In i idx ->
  shadowMap (vadd uv (vscale (disk_get disk i) sr)) < z ->
  forall acc : BlockerAcc,
    (numBlockers acc <
     numBlockers
       (fold_left (findBlocker_step shadowMap disk uv z sr) idx acc))%nat.
Proof.
  intros Hin Hblk. induction idx as [|j idx IH]; [destruct Hin|].
  intros acc. cbn [fold_left].
  assert (Hmono : forall idx' acc',
    (numBlockers acc' <=
     numBlockers
       (fold_left (findBlocker_step shadowMap disk uv z sr) idx' acc'))%nat).
  { induction idx' as [|k idx' IH']; intros acc'; [cbn; lia|].
    cbn [fold_left]. eapply Nat.le_trans; [|apply IH'].
    unfold findBlocker_step. destruct (Rlt_dec _ _); cbn; lia. }
  destruct Hin as [->|Hin].
  - eapply Nat.lt_le_trans; [|apply Hmono].
    unfold findBlocker_step.
    destruct (Rlt_dec _ z) as [_|Hn]; [cbn; lia | contradiction].
  - eapply Nat.le_lt_trans; [|apply (IH Hin)].
    unfold findBlocker_step. destruct (Rlt_dec _ _); cbn; lia.
Qed.

(** What [findBlocker] returns over a map bounded below by [lo]: the
    sentinel, or an average between [lo] and [zReceiver]. *)
Lemma findBlocker_average (disk : list vec2) (uv : vec2) (z lo : R) :
  (forall p, lo <= shadowMap p) ->
  fst (findBlocker shadowMap disk uv z) = -1 \/
  lo <= fst (findBlocker shadowMap disk uv z) < z.
Proof.
  intros Hlo. unfold findBlocker, findBlocker_loop.
  destruct (findBlocker_fold_sum_bounds disk uv z
              (LIGHT_SIZE_UV * (z - NEAR_PLANE) / z) lo
              (seq 0 BLOCKER_SEARCH_NUM_SAMPLES) Hlo
              (MkBlockerAcc 0.0 0 [])) as (_ & Hl & _ & Hs).
  cbv zeta in Hl, Hs.
  set (acc := fold_left _ _ _) in *.
  cbn [blockerDepthSum numBlockers INR] in Hl, Hs.
  destruct (Nat.eqb_spec (numBlockers acc) 0) as [E|E]; cbn [fst].
  - left. lra.
  - right.
    assert (Hpos : 0 < INR (numBlockers acc)).
    { apply lt_0_INR. lia. }
    assert (Hs' : blockerDepthSum acc < 0.0 + z * (INR (numBlockers acc) - 0))
      by (apply Hs; lia).
    split.
    + apply Rmult_le_reg_r with (INR (numBlockers acc)); [exact Hpos|].
      unfold Rdiv. rewrite Rmult_assoc, Rinv_l by lra. lra.
    + apply Rmult_lt_reg_r with (INR (numBlockers acc)); [exact Hpos|].
      unfold Rdiv. rewrite Rmult_assoc, Rinv_l by lra. lra.
Qed.

(** X4: over a shadow map whose depths are at least [lo], [findBlocker]
    returns either the sentinel -1.0 or an average depth that is at least
    [lo] and strictly below [zReceiver]. *)
Theorem findBlocker_sentinel_or_average (disk : list vec2) (uv : vec2)
    (z lo : R) :
  (forall p, lo <= shadowMap p) ->
  fst (findBlocker shadowMap disk uv z) = -1 \/
  lo <= fst (findBlocker shadowMap disk uv z) < z.
Proof.
  intros Hlo.
  exact (findBlocker_average disk uv z lo Hlo).
Qed.

(** X5: over a shadow map with non-negative depths, [findBlocker] returns
    the sentinel -1.0 exactly when none of its 17 taps reads a depth below
    [zReceiver]. *)
Theorem findBlocker_sentinel_iff (disk : list vec2) (uv : vec2) (z : R) :
  (forall p, 0 <= shadowMap p) ->
  fst (findBlocker shadowMap disk uv z) = -1 <->
  (forall i, (i < BLOCKER_SEARCH_NUM_SAMPLES)%nat ->
     ~ shadowMap
         (vadd uv
            (vscale (disk_get disk i)
               (LIGHT_SIZE_UV * (z - NEAR_PLANE) / z))) < z).
Proof.
  intros Hpos. split.
  - intros Hsent i Hi Hblk.
    pose proof (findBlocker_fold_counts disk uv z _
                  (seq 0 BLOCKER_SEARCH_NUM_SAMPLES) i
                  ltac:(apply in_seq; lia) Hblk
                  (MkBlockerAcc 0.0 0 [])) as Hc.
    cbn [numBlockers] in Hc.
    destruct (findBlocker_fold_sum_bounds disk uv z
                (LIGHT_SIZE_UV * (z - NEAR_PLANE) / z) 0
                (seq 0 BLOCKER_SEARCH_NUM_SAMPLES) Hpos
                (MkBlockerAcc 0.0 0 [])) as (_ & Hl & _ & _).
    cbv zeta in Hl. cbn [blockerDepthSum numBlockers INR] in Hl.
    revert Hsent. unfold findBlocker, findBlocker_loop.
    set (acc := fold_left _ _ _) in *.
    destruct (Nat.eqb_spec (numBlockers acc) 0) as [E|E]; [lia|].
    cbn [fst]. intros Hsent.
    assert (Hn : 0 < INR (numBlockers acc)) by (apply lt_0_INR; lia).
    assert (Hq : 0 <= blockerDepthSum acc / INR (numBlockers acc)).
    { apply Rmult_le_pos; [lra|]. left. apply Rinv_0_lt_compat. exact Hn. }
    lra.
  - intros Hno. unfold findBlocker, findBlocker_loop.
    rewrite findBlocker_fold_no_blocker.
    + cbn [numBlockers Nat.eqb fst]. lra.
    + intros i Hi. apply in_seq in Hi. apply Hno. lia.
Qed.

Lemma findBlocker_finds_blockers (disk : list vec2) (uv : vec2) (z : R) :
  (forall p, 0 < shadowMap p < z) ->
  fst (findBlocker shadowMap disk uv z) <> -1.
Proof.
  intros Hall. unfold findBlocker, findBlocker_loop.
  destruct (findBlocker_fold_all_blockers shadowMap disk uv z
              (LIGHT_SIZE_UV * (z - NEAR_PLANE) / z)
              (seq 0 BLOCKER_SEARCH_NUM_SAMPLES) (MkBlockerAcc 0.0 0 []) Hall)
    as [Hn Hs].
  cbv zeta in Hn, Hs. rewrite length_seq in Hn.
  cbn [numBlockers blockerDepthSum] in Hn, Hs.
  set (acc := fold_left _ _ _) in *.
  rewrite Hn. change (0 + BLOCKER_SEARCH_NUM_SAMPLES)%nat with 17%nat.
  cbn [Nat.eqb fst].
  assert (H17 : INR 17 = 17) by (simpl; lra). rewrite H17. lra.
Qed.

(** X6: when [zReceiver] is positive, the depths of the shadow map are
    bounded below by a positive [lo] and the blocker search finds a
    blocker, the filter radius [PCSS] computes from the average is
    positive. *)
Theorem filterRadius_positive (disk : list vec2) (uv : vec2) (z lo : R) :
  0 < z -> 0 < lo -> (forall p, lo <= shadowMap p) ->
  fst (findBlocker shadowMap disk uv z) <> -1 ->
  0 < filterRadius z (fst (findBlocker shadowMap disk uv z)).
Proof.
  intros Hz Hlo Hbound Hfound.
  destruct (findBlocker_average disk uv z lo Hbound) as [H|[Hl Hu]];
    [lra|].
  set (avg := fst (findBlocker shadowMap disk uv z)) in *.
  unfold filterRadius, penumbraSize, LIGHT_SIZE_UV, LIGHT_WORLD_SIZE,
    LIGHT_FRUSTUM_WIDTH, NEAR_PLANE.
  assert (Havg : 0 < / avg) by (apply Rinv_0_lt_compat; lra).
  assert (Hzi : 0 < / z) by (apply Rinv_0_lt_compat; lra).
  assert (Hratio : 0 < (z - avg) / avg)
    by (unfold Rdiv; apply Rmult_lt_0_compat; lra).
  assert (HL : 0 < 0.05 / 3.75) by lra.
  unfold Rdiv at 1.
  apply Rmult_lt_0_compat; [|exact Hzi].
  apply Rmult_lt_0_compat; [|lra].
  apply Rmult_lt_0_compat; assumption.
Qed.

Lemma initPoissonSamples_get (seed : vec2) (disk : list vec2) (k : nat) :
  length disk = NUM_SAMPLES -> (k < NUM_SAMPLES)%nat ->
  disk_get (initPoissonSamples rand seed disk) k =
  spiral_sample (PI2 * INR NUM_RINGS / INR NUM_SAMPLES)
    (1.0 / INR NUM_SAMPLES) (rand seed * PI2) (1.0 / INR NUM_SAMPLES) k.
Proof.
  intros Hlen Hk. rewrite initPoissonSamples_closed_form by exact Hlen.
  unfold disk_get.
  change (map ?f ?l) with (f <$> l).
  rewrite list_lookup_fmap, lookup_seq_lt by exact Hk. reflexivity.
Qed.

Lemma spiral_sample_length (step angle : R) (k : nat) :
  vlength (spiral_sample step (1.0 / INR NUM_SAMPLES) angle
             (1.0 / INR NUM_SAMPLES) k)
  = Rpower ((INR k + 1) / 17) 0.75.
Proof.
  unfold spiral_sample.
  rewrite vlength_unit_scaled by (unfold Rpower; left; apply exp_pos).
  f_equal. simpl INR. lra.
Qed.

Lemma vlength_vscale (p : vec2) (k : R) :
  0 <= k -> vlength (vscale p k) = vlength p * k.
Proof.
  intros Hk. unfold vlength, vscale. cbn [fst snd].
  replace (fst p * k * (fst p * k) + snd p * k * (snd p * k))
    with ((fst p * fst p + snd p * snd p) * (k * k)) by ring.
  rewrite sqrt_mult; [|nra|nra].
  rewrite (sqrt_square k) by exact Hk. reflexivity.
Qed.

(** X7: the offsets [initPoissonSamples] leaves form a spiral: offset [k]
    has length ((k+1)/17)^0.75, so the lengths grow strictly with the
    index and the last offset lies on the unit circle. *)
Theorem poissonDisk_spiral_lengths (seed : vec2) (disk : list vec2) :
  length disk = NUM_SAMPLES ->
  (forall k, (k < NUM_SAMPLES)%nat ->
     vlength (disk_get (initPoissonSamples rand seed disk) k)
     = Rpower ((INR k + 1) / 17) 0.75) /\
  (forall j k, (j < k < NUM_SAMPLES)%nat ->
     vlength (disk_get (initPoissonSamples rand seed disk) j)
     < vlength (disk_get (initPoissonSamples rand seed disk) k)) /\
  vlength (disk_get (initPoissonSamples rand seed disk) 16) = 1.
Proof.
  intros Hlen.
  assert (Hk : forall k, (k < NUM_SAMPLES)%nat ->
     vlength (disk_get (initPoissonSamples rand seed disk) k)
     = Rpower ((INR k + 1) / 17) 0.75).
  { intros k Hk. rewrite initPoissonSamples_get by assumption.
    apply spiral_sample_length. }
  split; [exact Hk|]. split.
  - intros j k [Hjk Hk17]. rewrite !Hk by lia.
    apply Rlt_Rpower_l; [lra|].
    pose proof (pos_INR j). apply lt_INR in Hjk. split; lra.
  - rewrite Hk by (unfold NUM_SAMPLES; lia).
    replace ((INR 16 + 1) / 17) with 1 by (simpl; lra).
    unfold Rpower. rewrite ln_1, Rmult_0_r. apply exp_0.
Qed.

(** X8: for a receiver at or behind the light's near plane
    ([zReceiver >= NEAR_PLANE]) every tap of the blocker search lies
    within [LIGHT_SIZE_UV * (zReceiver - NEAR_PLANE) / zReceiver] of
    (u,v), which is less than [LIGHT_SIZE_UV]. *)
Theorem blocker_taps_within_light (coords : vec4) (disk : list vec2)
    (i : nat) :
  length disk = NUM_SAMPLES -> (i < NUM_SAMPLES)%nat ->
  NEAR_PLANE <= vz coords ->
  exists off : vec2,
    blocker_tap rand coords disk i = vadd (vx coords, vy coords) off /\
    vlength off <= LIGHT_SIZE_UV * (vz coords - NEAR_PLANE) / vz coords /\
    LIGHT_SIZE_UV * (vz coords - NEAR_PLANE) / vz coords < LIGHT_SIZE_UV.
Proof.
  intros Hlen Hi Hz. unfold NEAR_PLANE in *.
  set (sr := LIGHT_SIZE_UV * (vz coords - 1.0) / vz coords).
  assert (Hzi : 0 < / vz coords) by (apply Rinv_0_lt_compat; lra).
  assert (HL : 0 < LIGHT_SIZE_UV)
    by (unfold LIGHT_SIZE_UV, LIGHT_WORLD_SIZE, LIGHT_FRUSTUM_WIDTH; lra).
  assert (Hratio : 0 <= (vz coords - 1.0) * / vz coords < 1).
  { split.
    - apply Rmult_le_pos; lra.
    - apply Rmult_lt_reg_r with (vz coords); [lra|].
      rewrite Rmult_assoc, Rinv_l by lra. lra. }
  assert (Hsr : 0 <= sr < LIGHT_SIZE_UV).
  { unfold sr, Rdiv. rewrite Rmult_assoc. split; [nra|nra]. }
  exists (vscale (disk_get (initPoissonSamples rand
                              (vx coords, vy coords) disk) i) sr).
  split; [reflexivity|]. split; [|apply Hsr].
  rewrite vlength_vscale by apply Hsr.
  rewrite initPoissonSamples_get by assumption.
  pose proof (spiral_sample_in_unit_disk
                (PI2 * INR NUM_RINGS / INR NUM_SAMPLES)
                (rand (vx coords, vy coords) * PI2) i Hi) as Hunit.
  assert (Hnn : 0 <= vlength (spiral_sample
     (PI2 * INR NUM_RINGS / INR NUM_SAMPLES) (1.0 / INR NUM_SAMPLES)
     (rand (vx coords, vy coords) * PI2) (1.0 / INR NUM_SAMPLES) i))
    by apply sqrt_pos.
  nra.
Qed.

End ShaderMore.

(** * Properties of the sky shader *)

Section SkyFacts.

Import Sky.

Lemma normalize_y_le_1 (v : vec3) :
  0 < vlength3 v -> - 1 <= vy3 (normalize v) <= 1.
Proof.
  intros Hlen. unfold normalize, vy3 at 1 3. cbn [fst snd].
  assert (Habs : Rabs (vy3 v) <= vlength3 v).
  { unfold vlength3. rewrite <- sqrt_Rsqr_abs. apply sqrt_le_1_alt.
    unfold Rsqr. pose proof (Rle_0_sqr (vx3 v)). pose proof (Rle_0_sqr (vz3 v)).
    unfold Rsqr in *. lra. }
  assert (Hinv : 0 < / vlength3 v) by (apply Rinv_0_lt_compat; exact Hlen).
  assert (Hhi : vy3 v <= vlength3 v)
    by (pose proof (Rle_abs (vy3 v)); lra).
  assert (Hlo : - vlength3 v <= vy3 v)
    by (pose proof (Rle_abs (- vy3 v)) as Hn; rewrite Rabs_Ropp in Hn; lra).
  split.
  - apply Rmult_le_reg_r with (vlength3 v); [exact Hlen|].
    unfold Rdiv. rewrite Rmult_assoc, Rinv_l by lra. lra.
  - apply Rmult_le_reg_r with (vlength3 v); [exact Hlen|].
    unfold Rdiv. rewrite Rmult_assoc, Rinv_l by lra. lra.
Qed.

Lemma sky_weight_range (offset exponent : R) (v : vec3) :
  0 < exponent -> 0 < vlength3 (vadd_scalar v offset) ->
  exists t, sky_weight offset exponent v = Some t /\ 0 <= t <= 1.
Proof.
  intros He Hlen. unfold sky_weight.
  destruct (normalize_y_le_1 (vadd_scalar v offset) Hlen) as [_ Hh].
  set (h := vy3 (normalize (vadd_scalar v offset))) in *.
  assert (Hm : 0 <= Rmax h 0.0 <= 1).
  { split; [eapply Rle_trans; [|apply Rmax_r]; lra | apply Rmax_lub; lra]. }
  unfold pow. destruct (Rlt_dec 0 (Rmax h 0.0)) as [Hpos|Hnpos].
  - eexists. split; [reflexivity|]. split.
    + eapply Rle_trans; [|apply Rmax_r]. lra.
    + apply Rmax_lub; [|lra]. apply Rpower_le_1; lra.
  - destruct (Rlt_dec (Rmax h 0.0) 0) as [Hneg|_]; [lra|].
    destruct (Rlt_dec 0 exponent) as [_|Hn]; [|contradiction].
    eexists. split; [reflexivity|]. split.
    + apply Rmax_r_le || (eapply Rle_trans; [|apply Rmax_r]; lra).
    + apply Rmax_lub; lra.
Qed.

Lemma mix_0 (a b : vec3) : mix a b 0 = a.
Proof.
  destruct a as [[ax ay] az]. unfold mix, vx3, vy3, vz3. cbn [fst snd].
  f_equal; [f_equal|]; ring.
Qed.

Lemma mix_1 (a b : vec3) : mix a b 1 = b.
Proof.
  destruct b as [[bx by_] bz]. unfold mix, vx3, vy3, vz3. cbn [fst snd].
  f_equal; [f_equal|]; ring.
Qed.

(** X27: the sky colour is a blend of the two colours.  For a positive
    exponent and a fragment whose offset position is not the zero vector,
    the shader's result is defined, the weight of [topColor] lies between
    0 and 1, every colour component lies between the components of
    [bottomColor] and [topColor], and alpha is 1. *)
Theorem sky_colour_between (topColor bottomColor : vec3)
    (offset exponent : R) (v : vec3) :
  0 < exponent -> 0 < vlength3 (vadd_scalar v offset) ->
  exists (t : R) (c : vec3),
    sky_weight offset exponent v = Some t /\
    fst <$> FS_main topColor bottomColor offset exponent v = Some c /\
    snd <$> FS_main topColor bottomColor offset exponent v = Some 1 /\
    0 <= t <= 1 /\
    Rmin (vx3 bottomColor) (vx3 topColor) <= vx3 c
      <= Rmax (vx3 bottomColor) (vx3 topColor) /\
    Rmin (vy3 bottomColor) (vy3 topColor) <= vy3 c
      <= Rmax (vy3 bottomColor) (vy3 topColor) /\
    Rmin (vz3 bottomColor) (vz3 topColor) <= vz3 c
      <= Rmax (vz3 bottomColor) (vz3 topColor).
Proof.
  intros He Hlen.
  destruct (sky_weight_range offset exponent v He Hlen) as (t & Hw & Ht).
  exists t, (mix bottomColor topColor t).
  unfold FS_main. rewrite Hw. cbn [fmap option_fmap option_map fst snd].
  split; [reflexivity|]. split; [reflexivity|].
  split; [f_equal; lra|]. split; [exact Ht|].
  assert (Hblend : forall a b : R,
    Rmin a b <= a * (1 - t) + b * t <= Rmax a b).
  { intros a b. unfold Rmin, Rmax. destruct (Rle_dec a b); split; nra. }
  unfold mix. unfold vx3 at 3 6, vy3 at 3 6, vz3 at 3 6. cbn [fst snd].
  repeat split; apply Hblend.
Qed.

(** X28: at or below the horizon the sky is exactly [bottomColor]: for
    a positive exponent and a fragment whose offset position is not the
    zero vector and whose height plus the offset is not positive, the
    weight of [topColor] is 0. *)
Theorem sky_below_horizon (topColor bottomColor : vec3)
    (offset exponent : R) (v : vec3) :
  0 < exponent ->
  0 < vlength3 (vadd_scalar v offset) ->
  vy3 v + offset <= 0 ->
  sky_weight offset exponent v = Some 0 /\
  fst <$> FS_main topColor bottomColor offset exponent v = Some bottomColor.
Proof.
  intros He Hlen Hy.
  assert (Hw : sky_weight offset exponent v = Some 0).
  { unfold sky_weight.
    assert (Hh : vy3 (normalize (vadd_scalar v offset)) <= 0).
    { assert (Hinv : 0 < / vlength3 (vadd_scalar v offset))
        by (apply Rinv_0_lt_compat; exact Hlen).
      destruct v as [[x y] z].
      unfold normalize, vadd_scalar, vx3, vy3, vz3 in *.
      cbn [fst snd] in *. unfold Rdiv. nra. }
    rewrite (Rmax_right (vy3 (normalize (vadd_scalar v offset))) 0.0)
      by lra.
    unfold pow. destruct (Rlt_dec 0 0.0) as [Hlt|_]; [lra|].
    destruct (Rlt_dec 0.0 0) as [Hlt|_]; [lra|].
    destruct (Rlt_dec 0 exponent) as [_|Hn]; [|contradiction].
    f_equal. rewrite Rmax_left by lra. reflexivity. }
  split; [exact Hw|].
  unfold FS_main. rewrite Hw. cbn [fmap option_fmap option_map fst].
  f_equal. apply mix_0.
Qed.

(** X29: straight up the sky is exactly [topColor]: for a positive
    exponent, when the offset position points along the positive y axis,
    the weight of [topColor] is 1. *)
Theorem sky_zenith (topColor bottomColor : vec3)
    (offset exponent : R) (v : vec3) :
  0 < exponent ->
  vx3 v + offset = 0 -> vz3 v + offset = 0 -> 0 < vy3 v + offset ->
  sky_weight offset exponent v = Some 1 /\
  fst <$> FS_main topColor bottomColor offset exponent v = Some topColor.
Proof.
  intros He Hx Hz Hy.
  assert (Hw : sky_weight offset exponent v = Some 1).
  { unfold sky_weight.
    assert (Hh : vy3 (normalize (vadd_scalar v offset)) = 1).
    { destruct v as [[x y] z].
      unfold normalize, vadd_scalar, vlength3, vx3, vy3, vz3 in *.
      cbn [fst snd] in *. rewrite Hx, Hz.
      replace (0 * 0 + (y + offset) * (y + offset) + 0 * 0)
        with ((y + offset) * (y + offset)) by ring.
      rewrite sqrt_square by lra. field. lra. }
    rewrite Hh. rewrite (Rmax_left 1 0.0) by lra.
    unfold pow. destruct (Rlt_dec 0 1) as [_|Hn]; [|lra].
    assert (Hp : Rpower 1 exponent = 1).
    { unfold Rpower. rewrite ln_1, Rmult_0_r. apply exp_0. }
    rewrite Hp. f_equal. apply Rmax_left. lra. }
  split; [exact Hw|].
  unfold FS_main. rewrite Hw. cbn [fmap option_fmap option_map fst].
  f_equal. apply mix_1.
Qed.

End SkyFacts.

(** * Further properties of the session and the frame loop *)

(** The class list of an element behaves as a set of tokens. *)
Lemma classList_remove_absent (c : string) (l : list string) :
  c ∉ l -> Demo.classList_remove c l = l.
Proof.
  unfold Demo.classList_remove. induction l as [|x l IH]; intros Hc.
  - reflexivity.
  - rewrite not_elem_of_cons in Hc. destruct Hc as [Hne Hc].
    rewrite filter_cons_True by congruence. f_equal. apply IH. exact Hc.
Qed.

(** [classList.add] followed by [classList.remove] of the same token
    gives back a list that never held the token; adding twice is adding
    once; after [add] the token is present and after [remove] it is
    absent, and neither touches the other tokens. *)
Lemma classList_add_remove (c : string) (l : list string) :
  (c ∈ Demo.classList_add c l) /\
  (c ∉ Demo.classList_remove c l) /\
  Demo.classList_add c (Demo.classList_add c l) = Demo.classList_add c l /\
  (c ∉ l -> Demo.classList_remove c (Demo.classList_add c l) = l) /\
  (forall d, d <> c ->
     (d ∈ Demo.classList_add c l <-> d ∈ l) /\
     (d ∈ Demo.classList_remove c l <-> d ∈ l)).
Proof.
  unfold Demo.classList_add.
  split; [|split; [|split; [|split]]].
  - destruct (decide (c ∈ l)); [assumption|].
    apply elem_of_app. right. apply list_elem_of_singleton. reflexivity.
  - unfold Demo.classList_remove. rewrite list_elem_of_filter.
    intros [Hne _]. apply Hne. reflexivity.
  - destruct (decide (c ∈ l)) as [Hin|Hnin].
    + destruct (decide (c ∈ l)); [reflexivity | contradiction].
    + destruct (decide (c ∈ l ++ [c])) as [_|Hn]; [reflexivity|].
      exfalso. apply Hn. apply elem_of_app. right.
      apply list_elem_of_singleton. reflexivity.
  - intros Hnin. destruct (decide (c ∈ l)); [contradiction|].
    unfold Demo.classList_remove. rewrite filter_app.
    rewrite (filter_cons_False _ c []) by (intros H; apply H; reflexivity).
    rewrite filter_nil, app_nil_r.
    apply (classList_remove_absent c l Hnin).
  - intros d Hd. split.
    + destruct (decide (c ∈ l)); [reflexivity|].
      rewrite elem_of_app, list_elem_of_singleton. tauto.
    + unfold Demo.classList_remove. rewrite list_elem_of_filter. tauto.
Qed.

Section SceneMore.

Import Demo.

Context {Ext : Type} `{EqDecision Ext}.

Lemma remove_first_absent (o : Object3D Ext) (l : list (Object3D Ext)) :
  o ∉ l -> remove_first o l = l.
Proof.
  induction l as [|y l IH]; intros Ho; [reflexivity|].
  rewrite not_elem_of_cons in Ho. destruct Ho as [Hne Ho].
  cbn. destruct (decide (o = y)); [contradiction|]. f_equal. apply IH, Ho.
Qed.

Lemma remove_first_app_absent (o : Object3D Ext)
    (l : list (Object3D Ext)) :
  o ∉ l -> remove_first o (l ++ [o]) = l.
Proof.
  induction l as [|y l IH]; intros Ho.
  - cbn. destruct (decide (o = o)); [reflexivity | contradiction].
  - rewrite not_elem_of_cons in Ho. destruct Ho as [Hne Ho].
    cbn. destruct (decide (o = y)); [contradiction|]. f_equal. apply IH, Ho.
Qed.

Lemma remove_first_length (o : Object3D Ext) (l : list (Object3D Ext)) :
  o ∈ l -> S (length (remove_first o l)) = length l.
Proof.
  induction l as [|y l IH]; intros Ho; [inversion Ho|].
  cbn. destruct (decide (o = y)) as [_|Hne]; [reflexivity|].
  cbn. f_equal. apply IH.
  apply elem_of_cons in Ho. destruct Ho; [contradiction | assumption].
Qed.

(** [scene.remove] undoes [scene.add] of an object the scene did not
    hold; removing an object that is not a child, or [undefined], leaves
    the scene as it is; removing a child makes the scene one child
    shorter; [scene.clear] leaves no child. *)
Lemma Scene_add_remove (o : Object3D Ext) (sc : Scene Ext) :
  (o ∉ children sc -> Scene_remove (Some o) (Scene_add o sc) = sc) /\
  (o ∉ children sc -> Scene_remove (Some o) sc = sc) /\
  Scene_remove None sc = sc /\
  (o ∈ children sc ->
   S (length (children (Scene_remove (Some o) sc))) = length (children sc)) /\
  children (Scene_clear (Scene_add o sc)) = [].
Proof.
  destruct sc as [ch bg fg]. unfold Scene_remove, Scene_add, Scene_clear.
  cbn [children background fog].
  split; [|split; [|split; [|split]]].
  - intros Ho. rewrite remove_first_app_absent by exact Ho. reflexivity.
  - intros Ho. rewrite remove_first_absent by exact Ho. reflexivity.
  - reflexivity.
  - apply remove_first_length.
  - reflexivity.
Qed.

End SceneMore.

Section DemoMore.

Import Demo.

Context `{C : Collaborators}.

Ltac js_unfold :=
  unfold RAF_callback, Step_, RAF_, _OnStart, _OnReplay, _ResetGame,
    _ResetPlayer, _InitializeScene, _OnCharacterSelect, OnWindowResize_,
    element, getElementById, element_put, scene_do, threejs_do, camera_do,
    this_obj, this, emit, assign, host_do, deref, gets, modify, throw,
    bind, ret.

Ltac js_fields s :=
  destruct s as [[r sc cam w p b prev started over ch]
                 [doc iw ih dpr wl pf lg]];
  unfold ready, constructed, has_element, sessionState, emitted, actors,
    flags_ok in *;
  cbn [app host threejs_ scene_ camera_ world_ player_ background_
       previousRAF_ _gameStarted _gameOver _currentCharacter
       document innerWidth innerHeight devicePixelRatio windowListeners
       pendingFrames log] in *.

Ltac js_some :=
  repeat match goal with
  | H : _ /\ _ |- _ => destruct H
  | H : is_Some _ |- _ => destruct H as [? H]
  end; subst.

Ltac js_cases :=
  repeat (cbn;
    match goal with
    | |- context [match ?x with Some _ => _ | None => _ end] =>
        destruct x
    | |- context [if ?b then _ else _] => destruct b
    end);
  cbn.

(** X9: [_OnCharacterSelect] only records the selection: it sets
    [_currentCharacter] to the value of the event's target and logs it;
    the scene, the gameplay objects, the two flags and the page are left
    as they are.  When the target is not on the page it throws a
    [TypeError] and changes nothing. *)
Theorem OnCharacterSelect_only_selects (target : string) (s : State) :
  match document (host s) !! target with
  | Some el =>
      exists s', _OnCharacterSelect target s = Normal tt s' /\
        _currentCharacter (app s') = Some (value el) /\
        actors s' = actors s /\
        _gameStarted (app s') = _gameStarted (app s) /\
        _gameOver (app s') = _gameOver (app s) /\
        document (host s') = document (host s) /\
        log (host s') =
        log (host s) ++ [ConsoleLog "Selected character:" (Some (value el))]
  | None => _OnCharacterSelect target s = Throw TypeError s
  end.
Proof.
  js_fields s. js_unfold. cbn.
  destruct (doc !! target); cbn; [|reflexivity].
  eexists. split; [reflexivity|]. cbn. auto 10.
Qed.

(** X10: whatever the state and however it ends, [_OnStart] never touches
    the world, the background, the camera, the renderer, [_gameOver], the
    previous timestamp or the log of calls. *)
Theorem OnStart_leaves_world_and_background (s : State) :
  let s' := final_state (_OnStart s) in
  (world_ (app s') = world_ (app s) /\
   background_ (app s') = background_ (app s) /\
   camera_ (app s') = camera_ (app s) /\
   threejs_ (app s') = threejs_ (app s) /\
   _gameOver (app s') = _gameOver (app s) /\
   previousRAF_ (app s') = previousRAF_ (app s) /\
   log (host s') = log (host s)).
Proof.
  js_fields s. js_unfold. js_cases; auto 10.
Qed.

(** X11: the errors of [_OnStart].  Without the dropdown on the page it
    throws a [TypeError] and changes nothing.  With the dropdown but
    without the menu element it throws a [TypeError] after the character
    was taken over and the player replaced, and [_gameStarted] is left as
    it was. *)
Theorem OnStart_errors (s : State) :
  (document (host s) !! "character-select" = None ->
   _OnStart s = Throw TypeError s) /\
  (forall (sel : Element) (sc0 : Scene Ext) (w0 : WorldManager),
     document (host s) !! "character-select" = Some sel ->
     document (host s) !! "game-menu" = None ->
     scene_ (app s) = Some sc0 -> world_ (app s) = Some w0 ->
     exists s', _OnStart s = Throw TypeError s' /\
       _gameStarted (app s') = _gameStarted (app s) /\
       _currentCharacter (app s') = Some (value sel) /\
       player_ (app s') =
       Some (fst (Player_new
                    (Scene_remove
                       (match player_ (app s) with
                        | Some pl => Player_mesh_ pl
                        | None => None
                        end) sc0)
                    w0 (Some (value sel))))).
Proof.
  js_fields s. split.
  - intros Hsel. js_unfold. cbn. rewrite Hsel. reflexivity.
  - intros sel sc0 w0 Hsel Hmenu -> ->. js_unfold. cbn.
    rewrite Hsel. cbn.
    destruct p; cbn; rewrite Hmenu; cbn;
      (eexists; split; [reflexivity|]; cbn; auto).
Qed.

(** X12: the errors of [_OnReplay].  Without the dropdown it throws a
    [TypeError] and changes nothing; with the dropdown but without the
    game-over panel it throws a [TypeError] before any teardown: the
    scene, the gameplay objects and both flags are as before, only the
    character was taken over. *)
Theorem OnReplay_errors (s : State) :
  (document (host s) !! "character-select" = None ->
   _OnReplay s = Throw TypeError s) /\
  (forall sel : Element,
     document (host s) !! "character-select" = Some sel ->
     document (host s) !! "game-over" = None ->
     exists s', _OnReplay s = Throw TypeError s' /\
       actors s' = actors s /\
       _gameStarted (app s') = _gameStarted (app s) /\
       _gameOver (app s') = _gameOver (app s) /\
       _currentCharacter (app s') = Some (value sel) /\
       host s' = host s).
Proof.
  js_fields s. split.
  - intros Hsel. js_unfold. cbn. rewrite Hsel. reflexivity.
  - intros sel Hsel Hover. js_unfold. cbn. rewrite Hsel. cbn.
    rewrite Hover. cbn. eexists. split; [reflexivity|]. cbn. auto 10.
Qed.

(** X13: [_OnReplay], when it completes, leaves the game-over panel
    without the class "active" and with its other classes, and leaves
    every other element of the page as it was. *)
Theorem OnReplay_hides_panel (s s' : State) :
  _OnReplay s = Normal tt s' ->
  exists panel panel' : Element,
    document (host s) !! "game-over" = Some panel /\
    document (host s') !! "game-over" = Some panel' /\
    ("active" ∉ classList panel') /\
    (forall c, c <> "active" ->
       (c ∈ classList panel' <-> c ∈ classList panel)) /\
    (forall id, id <> "game-over" ->
       document (host s') !! id = document (host s) !! id).
Proof.
  js_fields s. js_unfold. cbn.
  destruct (doc !! "character-select"); cbn; [|discriminate].
  destruct (doc !! "game-over") as [panel|] eqn:Hpanel; cbn;
    [|discriminate].
  destruct sc; cbn; [|discriminate].
  intros [= <-]. cbn.
  exists panel, (with_classList (classList_remove "active" (classList panel))
                   panel).
  split; [reflexivity|]. split; [apply lookup_insert_eq|].
  cbn [with_classList classList].
  destruct (classList_add_remove "active" (classList panel))
    as (_ & Hrem & _ & _ & Hother).
  split; [exact Hrem|]. split.
  - intros c Hc. apply (Hother c Hc).
  - intros id Hid. apply lookup_insert_ne. congruence.
Qed.

(** X14: the game-over transition.  On a tick in the Playing state of a
    ready instance, [_gameOver] afterwards is what the updated player's
    [gameOver] flag says; when it is set, the game-over panel carries the
    class "active" and the session is GameOver, otherwise the session is
    still Playing. *)
Theorem tick_game_over_transition (s : State) (t : R) :
  ready s -> sessionState s = Playing ->
  exists (s' : State) (pl : Player),
    RAF_callback t s = Normal tt s' /\
    player_ (app s') = Some pl /\
    _gameOver (app s') = Player_gameOver pl /\
    (if Player_gameOver pl
     then sessionState s' = GameOver /\
          exists panel, document (host s') !! "game-over" = Some panel /\
                        "active" ∈ classList panel
     else sessionState s' = Playing /\
          document (host s') = document (host s)).
Proof.
  intros Hr Hst. js_fields s. js_some.
  destruct started, over; try discriminate.
  match goal with H : doc !! "game-over" = Some _ |- _ => rename H into Hel end.
  js_unfold.
  destruct prev; cbn.
  all: destruct (Player_gameOver _) eqn:Hgo; cbn.
  all: try (rewrite Hel; cbn).
  all: do 2 eexists; (split; [reflexivity|]); cbn.
  all: (split; [reflexivity|]); rewrite Hgo; (split; [reflexivity|]).
  all: split; try reflexivity.
  all: eexists; (split; [apply lookup_insert_eq|]).
  all: cbn [with_classList classList].
  all: match goal with
       | |- _ ∈ classList_add _ ?l =>
           exact (proj1 (classList_add_remove "active" l))
       end.
Qed.

(** X15: a tick outside the Playing state is inert for the game: however
    it ends, the scene, the gameplay objects, both flags, the selected
    character and the page are as before. *)
Theorem tick_inert_outside_playing (s : State) (t : R) :
  sessionState s <> Playing ->
  let s' := final_state (RAF_callback t s) in
  (actors s' = actors s /\
   _gameStarted (app s') = _gameStarted (app s) /\
   _gameOver (app s') = _gameOver (app s) /\
   _currentCharacter (app s') = _currentCharacter (app s) /\
   document (host s') = document (host s)).
Proof.
  intros Hst. js_fields s.
  assert (Hnp : negb started || over = true)
    by (destruct started, over; try reflexivity; contradiction).
  js_unfold. destruct prev; cbn; rewrite Hnp; js_cases; auto 10.
Qed.

Lemma RAF_callback_reschedules (s : State) (t : R) :
  pendingFrames (host (final_state (RAF_callback t s)))
    = S (pendingFrames (host s)) /\
  head (emitted (RAF_callback t) s) = Some RequestAnimationFrame.
Proof.
  js_fields s. js_unfold.
  destruct started, over; js_cases;
    (split; [reflexivity|]);
    rewrite <- ?app_assoc, drop_app_length; reflexivity.
Qed.

(** X16: every tick requests the next frame first, and does so whatever
    happens later in the tick: in every state, also one in which the tick
    throws, exactly one more callback is pending afterwards and the first
    call the tick makes is [requestAnimationFrame]. *)
Theorem tick_always_reschedules (s : State) (t : R) :
  pendingFrames (host (final_state (RAF_callback t s)))
    = S (pendingFrames (host s)) /\
  head (emitted (RAF_callback t) s) = Some RequestAnimationFrame.
Proof. exact (RAF_callback_reschedules s t). Qed.

(** The handlers of the page never touch the queue of frame callbacks. *)
Lemma run_handler_pending (target : string) (h : Handler) (s : State) :
  pendingFrames (host (final_state (run_handler target h s)))
    = pendingFrames (host s).
Proof.
  destruct h; cbn [run_handler]; js_fields s; js_unfold; js_cases;
    reflexivity.
Qed.

Lemma run_listeners_pending (type target : string)
    (ls : list (string * Handler)) :
  forall s : State,
    pendingFrames (host (final_state (run_listeners type target ls s)))
      = pendingFrames (host s).
Proof.
  induction ls as [|[ty h] ls IH]; intros s; [reflexivity|].
  cbn [run_listeners]. unfold bind.
  destruct (decide (ty = type)).
  - unfold settle. rewrite IH. apply run_handler_pending.
  - unfold ret. apply IH.
Qed.

Lemma run_frames_pending (n : nat) (t : R) :
  forall s : State,
    pendingFrames (host (final_state (run_frames n t s)))
      = (n + pendingFrames (host s))%nat.
Proof.
  induction n as [|n IH]; intros s; [reflexivity|].
  cbn [run_frames]. unfold bind, settle. rewrite IH.
  destruct (RAF_callback_reschedules s t) as [-> _]. lia.
Qed.

Lemma dispatch_pending (ev : HostEvent) (s : State) :
  pendingFrames (host (final_state (dispatch ev s)))
    = pendingFrames (host s).
Proof.
  destruct ev as [id|id v|w h|t]; cbn [dispatch].
  - unfold bind, getElementById, gets.
    destruct (document (host s) !! id) as [el|]; [|reflexivity].
    destruct (onclick el) as [h|]; [|reflexivity].
    unfold settle. cbn [final_state]. apply run_handler_pending.
  - unfold bind, getElementById, gets.
    destruct (document (host s) !! id) as [el|]; [|reflexivity].
    unfold element_put, host_do, modify. rewrite run_listeners_pending.
    reflexivity.
  - unfold bind, host_do, modify, gets. rewrite run_listeners_pending.
    reflexivity.
  - unfold bind, host_do, modify, gets. rewrite run_frames_pending.
    cbn. lia.
Qed.

Lemma constructor_pending (h : Host) :
  is_Some (document h !! "container") ->
  pendingFrames
    (host (final_state (BasicWorldDemo_constructor (blank h))))
    = S (pendingFrames h).
Proof.
  intros [c Hc]. destruct h as [doc iw ih dpr wl pf lg].
  cbn [document pendingFrames] in *.
  unfold BasicWorldDemo_constructor, _Initialize, blank. js_unfold. cbn.
  rewrite Hc. js_cases; reflexivity.
Qed.

(** X17: the frame loop neither dies nor multiplies.  When the page has
    the container element, every state reachable from the constructor has
    exactly one frame callback pending more than the page had before,
    whatever was clicked or selected and whichever callbacks threw. *)
Theorem one_pending_frame (h : Host) (s : State) :
  is_Some (document h !! "container") ->
  reachable h s ->
  pendingFrames (host s) = S (pendingFrames h).
Proof.
  intros Hc Hreach. induction Hreach as [|s ev _ IH].
  - apply constructor_pending. exact Hc.
  - rewrite dispatch_pending. exact IH.
Qed.

(** A tick of a ready instance completes, records its timestamp and
    leaves the instance fully built. *)
Lemma tick_completes (s : State) (t : R) :
  ready s ->
  exists s', RAF_callback t s = Normal tt s' /\
    previousRAF_ (app s') = Some t /\ constructed s'.
Proof.
  intros Hr. js_fields s. js_some. js_unfold.
  destruct prev, started, over; cbn;
    try (destruct (Player_gameOver _); cbn; [rewrite H0; cbn|]);
    eexists; (split; [reflexivity|]); cbn;
    (split; [reflexivity|]); repeat split; eauto.
Qed.

Lemma tick_updates_since (s : State) (t t0 : R) :
  constructed s -> previousRAF_ (app s) = Some t0 ->
  sessionState s = Playing ->
  filter is_update (emitted (RAF_callback t) s) =
  [PlayerUpdate ((t - t0) / 1000.0); WorldUpdate ((t - t0) / 1000.0);
   BackgroundUpdate ((t - t0) / 1000.0)].
Proof.
  intros Hc Hprev Hst. js_fields s. js_some.
  destruct started, over; try discriminate.
  js_unfold. cbn.
  destruct (Player_gameOver _); cbn;
    [destruct (doc !! "game-over"); cbn|];
    rewrite <- !app_assoc, drop_app_length; reflexivity.
Qed.

(** X18: the elapsed time of a tick is measured from the tick before.
    After a tick at [t1] of a ready instance, a tick at [t2] in the
    Playing state hands (t2 - t1) / 1000 to each of the three updates. *)
Theorem second_tick_delta (s s1 : State) (t1 t2 : R) :
  ready s -> RAF_callback t1 s = Normal tt s1 ->
  sessionState s1 = Playing ->
  filter is_update (emitted (RAF_callback t2) s1) =
  [PlayerUpdate ((t2 - t1) / 1000.0); WorldUpdate ((t2 - t1) / 1000.0);
   BackgroundUpdate ((t2 - t1) / 1000.0)].
Proof.
  intros Hr Hs1 Hst.
  destruct (tick_completes s t1 Hr) as (s' & Hs' & Hprev & Hc).
  rewrite Hs1 in Hs'. injection Hs' as <-.
  apply tick_updates_since; assumption.
Qed.

(** The handlers and the tick never clear [_gameStarted]. *)
Lemma OnStart_keeps_started (s : State) :
  _gameStarted (app s) = true ->
  _gameStarted (app (final_state (_OnStart s))) = true.
Proof. js_fields s. intros ->. js_unfold. js_cases; reflexivity. Qed.

Lemma OnReplay_keeps_started (s : State) :
  _gameStarted (app s) = true ->
  _gameStarted (app (final_state (_OnReplay s))) = true.
Proof. js_fields s. intros ->. js_unfold. js_cases; reflexivity. Qed.

Lemma OnCharacterSelect_keeps_started (target : string) (s : State) :
  _gameStarted (app s) = true ->
  _gameStarted (app (final_state (_OnCharacterSelect target s))) = true.
Proof. js_fields s. intros ->. js_unfold. js_cases; reflexivity. Qed.

Lemma OnWindowResize_keeps_started (s : State) :
  _gameStarted (app s) = true ->
  _gameStarted (app (final_state (OnWindowResize_ s))) = true.
Proof. js_fields s. intros ->. js_unfold. js_cases; reflexivity. Qed.

Lemma RAF_callback_keeps_started (t : R) (s : State) :
  _gameStarted (app s) = true ->
  _gameStarted (app (final_state (RAF_callback t s))) = true.
Proof.
  js_fields s. intros ->. js_unfold. destruct over; js_cases; reflexivity.
Qed.

(** X19: no event ever returns the session to Idle: once [_gameStarted]
    is set, it is still set after any click, selection, resize or
    animation frame, also when a callback throws. *)
Theorem never_back_to_idle (ev : HostEvent) (s : State) :
  sessionState s <> Idle ->
  sessionState (final_state (dispatch ev s)) <> Idle.
Proof.
  assert (Hidle : forall s0,
    sessionState s0 <> Idle <-> _gameStarted (app s0) = true).
  { intros s0. unfold sessionState.
    destruct (_gameStarted (app s0)), (_gameOver (app s0));
      split; congruence. }
  rewrite !Hidle.
  apply (dispatch_preserves (fun s0 => _gameStarted (app s0) = true)); auto.
  - apply OnStart_keeps_started.
  - apply OnReplay_keeps_started.
  - apply OnCharacterSelect_keeps_started.
  - apply OnWindowResize_keeps_started.
  - apply RAF_callback_keeps_started.
Qed.

(** X20: the GameOver state is left through replay only: start, a
    character selection, a resize and a tick all leave a GameOver session
    in GameOver. *)
Theorem game_over_left_by_replay_only (s : State) :
  sessionState s = GameOver ->
  sessionState (final_state (_OnStart s)) = GameOver /\
  (forall target,
     sessionState (final_state (_OnCharacterSelect target s)) = GameOver) /\
  sessionState (final_state (OnWindowResize_ s)) = GameOver /\
  (forall t, sessionState (final_state (RAF_callback t s)) = GameOver).
Proof.
  js_fields s. intros Hst.
  destruct started, over; try discriminate.
  split; [|split; [|split]]; intros; js_unfold; js_cases; reflexivity.
Qed.

Ltac js_lookup :=
  cbn; rewrite ?lookup_insert_ne by (intros ?; discriminate); cbn.

(** X21: the constructor completes exactly when the page has the
    container, the two buttons and the dropdown.  It then leaves a fully
    built instance in the Idle state with the character "Velociraptor",
    no previous timestamp, one frame requested, the play button wired to
    [_OnStart], the replay button to [_OnReplay], the dropdown's change
    event to [_OnCharacterSelect] and the window's resize event to
    [OnWindowResize_]. *)
Theorem constructor_completes_iff (h : Host) :
  ((exists s, BasicWorldDemo_constructor (blank h) = Normal tt s) <->
   is_Some (document h !! "container") /\
   is_Some (document h !! "play-button") /\
   is_Some (document h !! "replay-button") /\
   is_Some (document h !! "character-select")) /\
  (forall s, BasicWorldDemo_constructor (blank h) = Normal tt s ->
     constructed s /\
     sessionState s = Idle /\
     _currentCharacter (app s) = Some "Velociraptor" /\
     previousRAF_ (app s) = None /\
     log (host s) = log h ++ [RequestAnimationFrame] /\
     windowListeners (host s)
       = windowListeners h ++ [("resize", Handler_OnWindowResize)] /\
     (onclick <$> document (host s) !! "play-button")
       = Some (Some Handler_OnStart) /\
     (onclick <$> document (host s) !! "replay-button")
       = Some (Some Handler_OnReplay) /\
     exists sel, document h !! "character-select" = Some sel /\
       (listeners <$> document (host s) !! "character-select")
       = Some (listeners sel ++ [("change", Handler_OnCharacterSelect)])).
Proof.
  destruct h as [doc iw ih dpr wl pf lg].
  cbn [document log windowListeners].
  unfold BasicWorldDemo_constructor, _Initialize, blank. js_unfold.
  split.
  - split.
    + intros [s Hs]. revert Hs. js_lookup.
      destruct (doc !! "container"); js_lookup; [|discriminate].
      destruct (doc !! "play-button"); js_lookup; [|discriminate].
      destruct (doc !! "replay-button"); js_lookup; [|discriminate].
      destruct (doc !! "character-select"); js_lookup; [|discriminate].
      intros _. repeat split; eauto.
    + intros ([c Hc] & [p Hp] & [r Hr] & [sel Hsel]). js_lookup.
      rewrite Hc. js_lookup. rewrite Hp. js_lookup. rewrite Hr. js_lookup.
      rewrite Hsel. cbn. eexists. reflexivity.
  - intros s. js_lookup.
    destruct (doc !! "container"); js_lookup; [|discriminate].
    destruct (doc !! "play-button"); js_lookup; [|discriminate].
    destruct (doc !! "replay-button"); js_lookup; [|discriminate].
    destruct (doc !! "character-select") as [sel|]; js_lookup;
      [|discriminate].
    intros [= <-]. unfold constructed, sessionState. cbn.
    repeat split; eauto.
    + rewrite lookup_insert_ne by (intros ?; discriminate).
      rewrite lookup_insert_ne by (intros ?; discriminate).
      rewrite lookup_insert_eq. reflexivity.
    + rewrite lookup_insert_ne by (intros ?; discriminate).
      rewrite lookup_insert_eq. reflexivity.
    + exists sel. split; [reflexivity|].
      rewrite lookup_insert_eq. reflexivity.
Qed.

(** X22: how the constructor fails.  Without the container it throws a
    [TypeError] before anything is built: no scene, no frame requested,
    the page untouched.  With the container but without the play button
    it throws a [TypeError] after the scene was built and the first frame
    requested: the loop runs in the Idle state, and no element but the
    container was changed, so no button is wired. *)
Theorem constructor_failures (h : Host) :
  (document h !! "container" = None ->
   exists s, BasicWorldDemo_constructor (blank h) = Throw TypeError s /\
     scene_ (app s) = None /\ host s = h) /\
  (is_Some (document h !! "container") ->
   document h !! "play-button" = None ->
   exists s, BasicWorldDemo_constructor (blank h) = Throw TypeError s /\
     constructed s /\ sessionState s = Idle /\
     pendingFrames (host s) = S (pendingFrames h) /\
     (forall id, id <> "container" ->
        document (host s) !! id = document h !! id)).
Proof.
  destruct h as [doc iw ih dpr wl pf lg].
  cbn [document pendingFrames].
  unfold BasicWorldDemo_constructor, _Initialize, blank. js_unfold.
  split.
  - intros Hc. cbn. rewrite Hc. cbn. eexists. split; [reflexivity|].
    cbn. auto.
  - intros [c Hc] Hp. js_lookup. rewrite Hc. js_lookup. rewrite Hp. cbn.
    eexists. split; [reflexivity|]. unfold constructed, sessionState. cbn.
    repeat split; eauto.
    intros id Hid. apply lookup_insert_ne. congruence.
Qed.

(** X23: a click on a play button that is wired to [_OnStart] always
    returns to the browser normally; on a page with the dropdown and the
    menu, with the scene and the world in place, it takes the dropdown's
    character, hides the menu (display "none") and sets [_gameStarted],
    so a session that is not over is Playing afterwards. *)
Theorem click_play_starts (s : State) (btn sel : Element) :
  document (host s) !! "play-button" = Some btn ->
  onclick btn = Some Handler_OnStart ->
  document (host s) !! "character-select" = Some sel ->
  has_element "game-menu" s ->
  is_Some (scene_ (app s)) -> is_Some (world_ (app s)) ->
  exists s', dispatch (Click "play-button") s = Normal tt s' /\
    _currentCharacter (app s') = Some (value sel) /\
    _gameStarted (app s') = true /\
    (_gameOver (app s) = false -> sessionState s' = Playing) /\
    (style_display <$> document (host s') !! "game-menu") = Some "none".
Proof.
  intros Hbtn Hclick Hsel Hmenu Hsc Hw. js_fields s. js_some.
  unfold dispatch, bind, getElementById, gets. cbn.
  rewrite Hbtn, Hclick. unfold settle, run_handler.
  js_unfold. cbn. rewrite Hsel. cbn.
  destruct p; cbn; rewrite Hmenu; cbn;
    (eexists; split; [reflexivity|]; cbn;
     split; [reflexivity|]; split; [reflexivity|];
     split; [destruct over; intros; (discriminate || reflexivity)|];
     rewrite lookup_insert_eq; reflexivity).
Qed.


(** X25: [_ResetPlayer] replaces the player's mesh rather than adding a
    second one.  When the player constructor adds the new player's
    [mesh_] to the scene it is given, and the old player's mesh is in the
    scene, the scene afterwards is the old scene without the old mesh and
    with the new one appended: it has as many children as before. *)
Theorem ResetPlayer_replaces_mesh (s : State) (sc0 : Scene Ext)
    (w0 : WorldManager) (pl0 : Player) (m0 : Object3D Ext) :
  (forall sc w c, exists m,
     Player_mesh_ (fst (Player_new sc w c)) = Some m /\
     snd (Player_new sc w c) = Scene_add m sc) ->
  scene_ (app s) = Some sc0 -> world_ (app s) = Some w0 ->
  player_ (app s) = Some pl0 -> Player_mesh_ pl0 = Some m0 ->
  m0 ∈ children sc0 ->
  exists (s' : State) (sc' : Scene Ext) (pl' : Player) (m' : Object3D Ext),
    _ResetPlayer s = Normal tt s' /\
    scene_ (app s') = Some sc' /\ player_ (app s') = Some pl' /\
    Player_mesh_ pl' = Some m' /\
    children sc' = remove_first m0 (children sc0) ++ [m'] /\
    length (children sc') = length (children sc0).
Proof.
  intros Hnew Hsc Hw Hp Hm Hin. js_fields s. subst.
  destruct (Hnew (Scene_remove (Some m0) sc0) w0 ch) as (m' & Hm' & Hadd).
  exists (MkState
            (MkApp r (Some (snd (Player_new (Scene_remove (Some m0) sc0)
                                   w0 ch)))
               cam (Some w0)
               (Some (fst (Player_new (Scene_remove (Some m0) sc0) w0 ch)))
               b prev started over ch)
            (MkHost doc iw ih dpr wl pf lg)).
  exists (snd (Player_new (Scene_remove (Some m0) sc0) w0 ch)).
  exists (fst (Player_new (Scene_remove (Some m0) sc0) w0 ch)).
  exists m'.
  split.
  { js_unfold. cbn. rewrite Hm. reflexivity. }
  split; [reflexivity|]. split; [reflexivity|]. split; [exact Hm'|].
  rewrite Hadd. unfold Scene_add, Scene_remove.
  cbn [children]. split; [reflexivity|].
  rewrite length_app. cbn [length].
  pose proof (remove_first_length m0 (children sc0) Hin). lia.
Qed.

(** X26: [_OnStart], when the page has the dropdown and the menu and the
    scene and world are in place, builds the new player for the
    dropdown's current value, whatever [_currentCharacter] held before,
    on the current world and on the scene without the old player's mesh;
    the scene afterwards is the one the player constructor returned. *)
Theorem OnStart_builds_selected_player (s : State) (sel : Element)
    (sc0 : Scene Ext) (w0 : WorldManager) :
  document (host s) !! "character-select" = Some sel ->
  has_element "game-menu" s ->
  scene_ (app s) = Some sc0 -> world_ (app s) = Some w0 ->
  let sc1 :=
    Scene_remove
      (match player_ (app s) with
       | Some pl => Player_mesh_ pl
       | None => None
       end) sc0 in
  exists s', _OnStart s = Normal tt s' /\
    player_ (app s') = Some (fst (Player_new sc1 w0 (Some (value sel)))) /\
    scene_ (app s') = Some (snd (Player_new sc1 w0 (Some (value sel)))).
Proof.
  intros Hsel Hmenu Hsc Hw. js_fields s. js_some.
  js_unfold. cbn. rewrite Hsel. cbn.
  destruct p; cbn; rewrite Hmenu; cbn;
    (eexists; split; [reflexivity|]; cbn; auto).
Qed.

End DemoMore.

(** * The further properties on concrete inputs *)

Lemma PCF_Filter_extremes_witness :
  fst (Shader.PCF_Filter (fun _ => 1) (replicate 17 (0, 0)) (0, 0) 0.5 0.01)
    = 1 /\
  fst (Shader.PCF_Filter (fun _ => 0) (replicate 17 (0, 0)) (0, 0) 0.5 0.01)
    = 0.
Proof.
  split.
  - apply (proj1 (PCF_Filter_extremes (fun _ => 1) (replicate 17 (0, 0))
                    (0, 0) 0.5 0.01)).
    intros p. lra.
  - apply (proj2 (PCF_Filter_extremes (fun _ => 0) (replicate 17 (0, 0))
                    (0, 0) 0.5 0.01)).
    intros p. lra.
Defined.

Lemma findBlocker_sentinel_or_average_witness :
  fst (Shader.findBlocker (fun _ => 0.25) (replicate 17 (0, 0)) (0, 0) 0.5)
    = -1 \/
  0.25 <= fst (Shader.findBlocker (fun _ => 0.25) (replicate 17 (0, 0))
                 (0, 0) 0.5) < 0.5.
Proof.
  apply (findBlocker_sentinel_or_average (fun _ => 0.25)
           (replicate 17 (0, 0)) (0, 0) 0.5 0.25).
  intros p. lra.
Defined.

Lemma findBlocker_sentinel_iff_witness :
  fst (Shader.findBlocker (fun _ => 1) (replicate 17 (0, 0)) (0, 0) 0.5)
    = -1.
Proof.
  apply (findBlocker_sentinel_iff (fun _ => 1) (replicate 17 (0, 0))
           (0, 0) 0.5).
  - intros p. lra.
  - intros i _. lra.
Defined.

Lemma filterRadius_positive_witness :
  0 < Shader.filterRadius 0.5
        (fst (Shader.findBlocker (fun _ => 0.25) (replicate 17 (0, 0))
                (0, 0) 0.5)).
Proof.
  apply (filterRadius_positive (fun _ => 0.25) (replicate 17 (0, 0))
           (0, 0) 0.5 0.25).
  - lra.
  - lra.
  - intros p. lra.
  - apply findBlocker_finds_blockers. intros p. lra.
Defined.

Lemma poissonDisk_spiral_lengths_witness :
  Shader.vlength
    (Shader.disk_get
       (Shader.initPoissonSamples (fun _ => 0) (0, 0) (replicate 17 (0, 0)))
       16) = 1.
Proof.
  apply (poissonDisk_spiral_lengths (fun _ => 0) (0, 0)
           (replicate 17 (0, 0))).
  reflexivity.
Defined.

Lemma blocker_taps_within_light_witness :
  exists off : Shader.vec2,
    Shader.blocker_tap (fun _ => 0) (Shader.Vec4 0 0 2 0)
      (replicate 17 (0, 0)) 0
    = Shader.vadd (0, 0) off /\
    Shader.vlength off
      <= Shader.LIGHT_SIZE_UV * (2 - Shader.NEAR_PLANE) / 2 /\
    Shader.LIGHT_SIZE_UV * (2 - Shader.NEAR_PLANE) / 2
      < Shader.LIGHT_SIZE_UV.
Proof.
  apply (blocker_taps_within_light (fun _ => 0) (Shader.Vec4 0 0 2 0)
           (replicate 17 (0, 0)) 0).
  - reflexivity.
  - unfold Shader.NUM_SAMPLES. lia.
  - unfold Shader.NEAR_PLANE. cbn [Shader.vz]. lra.
Defined.

Lemma OnStart_errors_witness :
  Demo._OnStart (Demo.Stub.page_without "character-select")
    = Demo.Throw Demo.TypeError (Demo.Stub.page_without "character-select")
  /\
  exists s',
    Demo._OnStart (Demo.Stub.page_without "game-menu")
      = Demo.Throw Demo.TypeError s' /\
    Demo._gameStarted (Demo.app s')
      = Demo._gameStarted (Demo.app (Demo.Stub.page_without "game-menu")).
Proof.
  split.
  - apply (proj1 (OnStart_errors
                    (Demo.Stub.page_without "character-select"))).
    vm_compute. reflexivity.
  - destruct (proj2 (OnStart_errors (Demo.Stub.page_without "game-menu"))
                Demo.Stub.dropdown
                (Demo.MkScene
                   [Demo.DirectionalLight; Demo.HemisphereLight; Demo.Ground;
                    Demo.Sky; Demo.External "player"]
                   (Some 0x808080%Z)
                   (Some (Demo.FogExp2 0x89b2eb%Z 0.00125)))
                O)
      as (s' & Hs' & Hstarted & _).
    + vm_compute. reflexivity.
    + vm_compute. reflexivity.
    + vm_compute. reflexivity.
    + vm_compute. reflexivity.
    + exists s'. split; assumption.
Defined.

Lemma OnReplay_errors_witness :
  Demo._OnReplay (Demo.Stub.page_without "character-select")
    = Demo.Throw Demo.TypeError (Demo.Stub.page_without "character-select")
  /\
  exists s',
    Demo._OnReplay (Demo.Stub.page_without "game-over")
      = Demo.Throw Demo.TypeError s' /\
    Demo.actors s' = Demo.actors (Demo.Stub.page_without "game-over").
Proof.
  split.
  - apply (proj1 (OnReplay_errors
                    (Demo.Stub.page_without "character-select"))).
    vm_compute. reflexivity.
  - destruct (proj2 (OnReplay_errors (Demo.Stub.page_without "game-over"))
                Demo.Stub.dropdown)
      as (s' & Hs' & Hactors & _).
    + vm_compute. reflexivity.
    + vm_compute. reflexivity.
    + exists s'. split; assumption.
Defined.

Lemma OnReplay_hides_panel_witness :
  exists panel' : Demo.Element,
    Demo.document
      (Demo.host (Demo.final_state (Demo._OnReplay Demo.Stub.over_page)))
      !! "game-over" = Some panel' /\
    "active" ∉ Demo.classList panel'.
Proof.
  assert (Hrun : Demo._OnReplay Demo.Stub.over_page
                 = Demo.Normal tt
                     (Demo.final_state (Demo._OnReplay Demo.Stub.over_page)))
    by (vm_compute; reflexivity).
  destruct (OnReplay_hides_panel Demo.Stub.over_page _ Hrun)
    as (panel & panel' & _ & Hpanel' & Hactive & _).
  exists panel'. split; assumption.
Defined.

Lemma ready_playing_page_1 : Demo.ready Demo.Stub.playing_page_1.
Proof. repeat split; vm_compute; eexists; reflexivity. Defined.

Lemma ready_started_page : Demo.ready Demo.Stub.started_page.
Proof. repeat split; vm_compute; eexists; reflexivity. Defined.

Lemma tick_game_over_transition_witness :
  exists (s' : Demo.State) (pl : Demo.Player),
    Demo.RAF_callback 16 Demo.Stub.playing_page_1 = Demo.Normal tt s' /\
    Demo.player_ (Demo.app s') = Some pl /\
    Demo._gameOver (Demo.app s') = Demo.Player_gameOver pl.
Proof.
  destruct (tick_game_over_transition Demo.Stub.playing_page_1 16
              ready_playing_page_1)
    as (s' & pl & Hrun & Hpl & Hover & _).
  - vm_compute. reflexivity.
  - exists s', pl. repeat split; assumption.
Defined.

Lemma tick_inert_outside_playing_witness :
  Demo.actors (Demo.final_state (Demo.RAF_callback 48 Demo.Stub.over_page))
    = Demo.actors Demo.Stub.over_page.
Proof.
  apply (tick_inert_outside_playing Demo.Stub.over_page 48).
  vm_compute. discriminate.
Defined.

Lemma one_pending_frame_witness :
  Demo.pendingFrames (Demo.host Demo.Stub.over_page) = 1%nat.
Proof.
  apply (one_pending_frame Demo.Stub.browser Demo.Stub.over_page).
  - vm_compute. eexists. reflexivity.
  - exact over_page_reachable.
Defined.

Lemma second_tick_delta_witness :
  filter Demo.is_update
    (Demo.emitted (Demo.RAF_callback 32)
       (Demo.final_state (Demo.RAF_callback 16 Demo.Stub.playing_page_1)))
  = [Demo.PlayerUpdate ((32 - 16) / 1000.0);
     Demo.WorldUpdate ((32 - 16) / 1000.0);
     Demo.BackgroundUpdate ((32 - 16) / 1000.0)].
Proof.
  apply (second_tick_delta Demo.Stub.playing_page_1).
  - exact ready_playing_page_1.
  - vm_compute. reflexivity.
  - vm_compute. reflexivity.
Defined.

Lemma never_back_to_idle_witness :
  Demo.sessionState
    (Demo.final_state
       (Demo.dispatch (Demo.Click "replay-button") Demo.Stub.over_page))
  <> Demo.Idle.
Proof.
  apply (never_back_to_idle (Demo.Click "replay-button")
           Demo.Stub.over_page).
  vm_compute. discriminate.
Defined.

Lemma game_over_left_by_replay_only_witness :
  Demo.sessionState (Demo.final_state (Demo._OnStart Demo.Stub.over_page))
    = Demo.GameOver.
Proof.
  assert (Hover : Demo.sessionState Demo.Stub.over_page = Demo.GameOver)
    by (vm_compute; reflexivity).
  exact (proj1 (game_over_left_by_replay_only Demo.Stub.over_page Hover)).
Defined.

Lemma constructor_completes_iff_witness :
  (exists s,
     Demo.BasicWorldDemo_constructor (Demo.blank Demo.Stub.browser)
       = Demo.Normal tt s) /\
  ~ (exists s,
       Demo.BasicWorldDemo_constructor
         (Demo.blank (Demo.Stub.browser_without "replay-button"))
         = Demo.Normal tt s).
Proof.
  split.
  - apply (proj1 (constructor_completes_iff Demo.Stub.browser)).
    repeat split; vm_compute; eexists; reflexivity.
  - intros Hs.
    apply (proj1 (constructor_completes_iff
                    (Demo.Stub.browser_without "replay-button"))) in Hs.
    destruct Hs as (_ & _ & [x Hx] & _).
    vm_compute in Hx. discriminate.
Defined.

Lemma constructor_failures_witness :
  (exists s,
     Demo.BasicWorldDemo_constructor
       (Demo.blank (Demo.Stub.browser_without "container"))
       = Demo.Throw Demo.TypeError s /\
     Demo.scene_ (Demo.app s) = None) /\
  (exists s,
     Demo.BasicWorldDemo_constructor
       (Demo.blank (Demo.Stub.browser_without "play-button"))
       = Demo.Throw Demo.TypeError s /\
     Demo.pendingFrames (Demo.host s) = 1%nat).
Proof.
  split.
  - destruct (proj1 (constructor_failures
                       (Demo.Stub.browser_without "container")))
      as (s & Hs & Hsc & _).
    + vm_compute. reflexivity.
    + exists s. split; assumption.
  - destruct (proj2 (constructor_failures
                       (Demo.Stub.browser_without "play-button")))
      as (s & Hs & _ & _ & Hpf & _).
    + vm_compute. eexists. reflexivity.
    + vm_compute. reflexivity.
    + exists s. split; assumption.
Defined.

Lemma click_play_starts_witness :
  exists s',
    Demo.dispatch (Demo.Click "play-button") Demo.Stub.started_page
      = Demo.Normal tt s' /\
    Demo._gameStarted (Demo.app s') = true.
Proof.
  destruct (click_play_starts Demo.Stub.started_page
              (Demo.with_onclick (Some Demo.Handler_OnStart)
                 Demo.Stub.plain_element)
              Demo.Stub.dropdown)
    as (s' & Hs' & _ & Hstarted & _).
  - vm_compute. reflexivity.
  - reflexivity.
  - vm_compute. reflexivity.
  - vm_compute. eexists. reflexivity.
  - vm_compute. eexists. reflexivity.
  - vm_compute. eexists. reflexivity.
  - exists s'. split; assumption.
Defined.


Lemma ResetPlayer_replaces_mesh_witness :
  exists (s' : Demo.State) (sc' : Demo.Scene Demo.Ext),
    Demo._ResetPlayer Demo.Stub.started_page = Demo.Normal tt s' /\
    Demo.scene_ (Demo.app s') = Some sc' /\
    length (Demo.children sc') = 5%nat.
Proof.
  destruct (ResetPlayer_replaces_mesh Demo.Stub.started_page
              (Demo.MkScene
                 [Demo.DirectionalLight; Demo.HemisphereLight; Demo.Ground;
                  Demo.Sky; Demo.External "player"]
                 (Some 0x808080%Z)
                 (Some (Demo.FogExp2 0x89b2eb%Z 0.00125)))
              O (Demo.Stub.MkStubPlayer None 0) (Demo.External "player"))
    as (s' & sc' & pl' & m' & Hs' & Hsc' & _ & _ & _ & Hlen).
  - intros sc w c. exists (Demo.External "player"). split; reflexivity.
  - vm_compute. reflexivity.
  - vm_compute. reflexivity.
  - vm_compute. reflexivity.
  - reflexivity.
  - cbn [Demo.children]. apply list_elem_of_In. cbn. tauto.
  - exists s', sc'. split; [exact Hs'|]. split; [exact Hsc'|]. exact Hlen.
Defined.

Lemma OnStart_builds_selected_player_witness :
  exists s',
    Demo._OnStart Demo.Stub.started_page = Demo.Normal tt s' /\
    Demo.player_ (Demo.app s')
      = Some (Demo.Stub.MkStubPlayer (Some "TRex") 0).
Proof.
  destruct (OnStart_builds_selected_player Demo.Stub.started_page
              Demo.Stub.dropdown
              (Demo.MkScene
                 [Demo.DirectionalLight; Demo.HemisphereLight; Demo.Ground;
                  Demo.Sky; Demo.External "player"]
                 (Some 0x808080%Z)
                 (Some (Demo.FogExp2 0x89b2eb%Z 0.00125)))
              O)
    as (s' & Hs' & Hpl & _).
  - vm_compute. reflexivity.
  - vm_compute. eexists. reflexivity.
  - vm_compute. reflexivity.
  - vm_compute. reflexivity.
  - exists s'. split; [exact Hs'|]. rewrite Hpl. reflexivity.
Defined.

Lemma sky_position_nonzero :
  0 < Sky.vlength3 (Sky.vadd_scalar (0, 0, 0) 33).
Proof.
  unfold Sky.vlength3, Sky.vadd_scalar, Sky.vx3, Sky.vy3, Sky.vz3.
  cbn [fst snd]. apply sqrt_lt_R0. lra.
Defined.

Lemma sky_colour_between_witness :
  exists t : R, Sky.sky_weight 33 0.6 (0, 0, 0) = Some t /\ 0 <= t <= 1.
Proof.
  destruct (sky_colour_between (0, 0.5, 1) (0.5, 0.7, 0.9) 33 0.6 (0, 0, 0))
    as (t & c & Hw & _ & _ & Ht & _).
  - lra.
  - exact sky_position_nonzero.
  - exists t. split; assumption.
Defined.

Lemma sky_below_horizon_witness :
  fst <$> Sky.FS_main (0, 0.5, 1) (0.5, 0.7, 0.9) 33 0.6 (0, -40, 0)
    = Some (0.5, 0.7, 0.9).
Proof.
  apply (sky_below_horizon (0, 0.5, 1) (0.5, 0.7, 0.9) 33 0.6 (0, -40, 0)).
  - lra.
  - unfold Sky.vlength3, Sky.vadd_scalar, Sky.vx3, Sky.vy3, Sky.vz3.
    cbn [fst snd]. apply sqrt_lt_R0. lra.
  - unfold Sky.vy3. cbn [fst snd]. lra.
Defined.

Lemma sky_zenith_witness :
  fst <$> Sky.FS_main (0, 0.5, 1) (0.5, 0.7, 0.9) 33 0.6 (-33, 100, -33)
    = Some (0, 0.5, 1).
Proof.
  apply (sky_zenith (0, 0.5, 1) (0.5, 0.7, 0.9) 33 0.6 (-33, 100, -33)).
  - lra.
  - unfold Sky.vx3. cbn [fst snd]. lra.
  - unfold Sky.vz3. cbn [fst snd]. lra.
  - unfold Sky.vy3. cbn [fst snd]. lra.
Defined.
